(** * Findn LED BLE: protocol encoder, connection manager, command dispatcher,
      device facade and light entity, embedded from
      [custom_components/findn_led_ble/device_protocol.py],
      [custom_components/findn_led_ble/device.py] and
      [custom_components/findn_led_ble/light.py].

    Python integers are [Z]; Python floats are the rationals they denote
    ([Q], with exact arithmetic); a [bytes] object is a [list Z] whose
    elements were checked to lie in [range(256)]; an exception is a value of
    [exn]; a coroutine is a function on the machine state returning an
    outcome and the new state. *)

From Stdlib Require Import ZArith QArith List Bool Lia.
From Stdlib Require String.
Import String.StringSyntax.
Delimit Scope string_scope with string.
Import ListNotations.
Local Open Scope Z_scope.

(** ** Exceptions and outcomes *)

(** The exception classes the code raises, catches or names.  [BleakError]
    stands for an instance of that class which is of none of its listed
    subclasses; [TimeoutError] for the non-Bleak members of
    [BLEAK_RETRY_EXCEPTIONS]. *)
Inductive exn : Type :=
| BleakError
| BleakDBusError
| BleakNotFoundError
| CharacteristicMissingError
| AssertionError
| ValueError
| TimeoutError.

(** [isinstance(e, BleakDBusError)]. *)
Definition is_BleakDBusError (e : exn) : bool :=
  match e with BleakDBusError => true | _ => false end.

(** [isinstance(e, BleakError)]: [BleakDBusError] and [BleakNotFoundError]
    derive from [BleakError]; [CharacteristicMissingError] derives from
    [Exception] (device.py line 43). *)
Definition is_BleakError (e : exn) : bool :=
  match e with
  | BleakError | BleakDBusError | BleakNotFoundError => true
  | _ => false
  end.

Inductive result (A : Type) : Type :=
| Return (a : A)
| Raise (e : exn).
Arguments Return {A} a.
Arguments Raise {A} e.

(** ** Python builtins used by the encoder *)

(** [bytes(l)] for a list of integers: [ValueError] unless every element is
    in [range(0, 256)]. *)
Definition byte_ok (b : Z) : bool := (0 <=? b) && (b <? 256).

Definition bytes (l : list Z) : result (list Z) :=
  if forallb byte_ok l then Return l else Raise ValueError.

(** [round(x)] with one argument: the nearest integer, ties to even. *)
Definition round (x : Q) : Z :=
  let n := Qnum x in
  let d := Zpos (Qden x) in
  let q := n / d in
  let r := n mod d in
  match 2 * r ?= d with
  | Lt => q
  | Gt => q + 1
  | Eq => if Z.even q then q else q + 1
  end.

(** Modelled from the spec: [brightness_to_value] of
    [homeassistant.util.color], which is imported by device_protocol.py and
    is not part of the repository.  The spec describes it as the linear
    rescale of the level from the range 1..255 onto the target range,
    [low + (level - 1) / 254 * (high - low)]. *)
Definition brightness_to_value (low_high_range : Z * Z) (brightness : Z) : Q :=
  let (low, high) := low_high_range in
  (inject_Z low + inject_Z (brightness - 1) / 254 * inject_Z (high - low))%Q.

(** ** device_protocol.py *)

Module FindnLedBLEProtocol.

Definition _TURN_ON_CMD : list Z := [0xBC; 0x01; 0x01; 0x01; 0x55].
Definition _TURN_OFF_CMD : list Z := [0xBC; 0x01; 0x01; 0x00; 0x55].

Definition _BRIGHTESS_SCALE_RANGE : Z * Z := (100, 1000).

Definition turn_on_command : list Z := _TURN_ON_CMD.
Definition turn_off_command : list Z := _TURN_OFF_CMD.

Definition construct_set_brightness_cmd (brightness : Z) : result (list Z) :=
  let scaled_brightness :=
    round (brightness_to_value _BRIGHTESS_SCALE_RANGE brightness) in
  bytes [0xBC; 0x05; 0x06;
         scaled_brightness / 256; scaled_brightness mod 256;
         0x00; 0x00; 0x00; 0x00; 0x55].

Definition construct_set_hs_color_cmd (hs : Q * Q) : result (list Z) :=
  let hue := round (fst hs) in
  let saturation := round (snd hs * 10)%Q in
  bytes [0xBC; 0x04; 0x06;
         hue / 256; hue mod 256;
         saturation / 256; saturation mod 256;
         0x00; 0x00; 0x55].

(** The list display evaluates its two [bytes(...)] calls left to right. *)
Definition construct_set_effect_cmd (effect : Z) : result (list (list Z)) :=
  let direction := if 0 <? effect then 1 else 0 in
  let effect := Z.abs effect in
  match bytes [0xBC; 0x06; 0x02; effect / 256; effect mod 256; 0x55] with
  | Raise e => Raise e
  | Return magnitude_frame =>
      match bytes [0xBC; 0x07; 0x01; direction mod 256; 0x55] with
      | Raise e => Raise e
      | Return direction_frame => Return [magnitude_frame; direction_frame]
      end
  end.

End FindnLedBLEProtocol.

(** ** device.py: data *)

Definition BLEAK_BACKOFF_TIME : Q := 0.25.

Definition DISCONNECT_DELAY : Z := 120.

Definition DEFAULT_ATTEMPTS : nat := 3.

(** The frozen dataclass [FindnLedState]; [effect] defaults to [None]. *)
Record FindnLedState : Type := {
  power : bool;
  hs : Q * Q;
  brightness : Z;
  effect : option Z
}.

Definition FindnLedState_default : FindnLedState :=
  {| power := false; hs := (0%Q, 0%Q); brightness := 1; effect := None |}.

(** [dataclasses.replace(state, field=value)], one function per field used. *)
Definition replace_power (s : FindnLedState) (v : bool) : FindnLedState :=
  {| power := v; hs := hs s; brightness := brightness s; effect := effect s |}.
Definition replace_hs (s : FindnLedState) (v : Q * Q) : FindnLedState :=
  {| power := power s; hs := v; brightness := brightness s; effect := effect s |}.
Definition replace_brightness (s : FindnLedState) (v : Z) : FindnLedState :=
  {| power := power s; hs := hs s; brightness := v; effect := effect s |}.
Definition replace_effect (s : FindnLedState) (v : Z) : FindnLedState :=
  {| power := power s; hs := hs s; brightness := brightness s; effect := Some v |}.

(** The two [asyncio.Lock] objects of a device. *)
Inductive lock : Type := _operation_lock | _connect_lock.

(** A GATT characteristic handle, as returned by
    [services.get_characteristic(WRITE_CHARACTERISTIC_UUID)]; [None] when the
    service collection has no characteristic with that identifier. *)
Definition characteristic : Type := nat.

(** A [BleakClientWithServiceCache]: whether the link is up, the lookup of
    the write characteristic in [client.services], and the lookup in what
    [client.get_services()] returns. *)
Record client : Type := {
  is_connected : bool;
  services : option characteristic;
  get_services : option characteristic
}.

(** A registered update callback, [Callable[[], None]], known by its name. *)
Definition callback : Type := nat.

(** What the device does to the outside world, in order. *)
Inductive event : Type :=
| EvAcquire (l : lock)
| EvRelease (l : lock)
| EvEstablishConnection
| EvGetServices
| EvWrite (char : characteristic) (command : list Z)
| EvClientDisconnect (expected : bool)
| EvSleep (delay : Q)
| EvTimerCancel
| EvCallLater (delay : Z)
| EvCallback (cb : callback) (seen : FindnLedState).

(** The transport, out of scope of the repository, as a script: the outcome
    of the n-th [establish_connection] call (the two characteristic lookups
    of the client it returns, or the exception it raises) and of the n-th
    [write_gatt_char] call (success, or an exception together with whether
    the link is still up afterwards). *)
Inductive write_outcome : Type :=
| WriteOk
| WriteRaises (e : exn) (link_up : bool).

Record transport : Type := {
  establish_connection_outcome :
    nat -> result (option characteristic * option characteristic);
  write_gatt_char_outcome : nat -> write_outcome
}.

(** The attributes of a [FindnLedDevice] that the code reads or writes,
    followed by the transport script, the number of calls made to it so far
    and the events so far. *)
Record machine : Type := {
  _state : FindnLedState;
  _write_char : option characteristic;
  _disconnect_timer : option Z;
  _client : option client;
  _expected_disconnect : bool;
  _update_callback : option callback;
  env : transport;
  connect_calls : nat;
  write_calls : nat;
  trace : list event
}.

Definition set_state (v : FindnLedState) (m : machine) : machine :=
  {| _state := v; _write_char := _write_char m;
     _disconnect_timer := _disconnect_timer m; _client := _client m;
     _expected_disconnect := _expected_disconnect m;
     _update_callback := _update_callback m; env := env m;
     connect_calls := connect_calls m; write_calls := write_calls m;
     trace := trace m |}.

Definition set_write_char (v : option characteristic) (m : machine) : machine :=
  {| _state := _state m; _write_char := v;
     _disconnect_timer := _disconnect_timer m; _client := _client m;
     _expected_disconnect := _expected_disconnect m;
     _update_callback := _update_callback m; env := env m;
     connect_calls := connect_calls m; write_calls := write_calls m;
     trace := trace m |}.

Definition set_disconnect_timer (v : option Z) (m : machine) : machine :=
  {| _state := _state m; _write_char := _write_char m;
     _disconnect_timer := v; _client := _client m;
     _expected_disconnect := _expected_disconnect m;
     _update_callback := _update_callback m; env := env m;
     connect_calls := connect_calls m; write_calls := write_calls m;
     trace := trace m |}.

Definition set_client (v : option client) (m : machine) : machine :=
  {| _state := _state m; _write_char := _write_char m;
     _disconnect_timer := _disconnect_timer m; _client := v;
     _expected_disconnect := _expected_disconnect m;
     _update_callback := _update_callback m; env := env m;
     connect_calls := connect_calls m; write_calls := write_calls m;
     trace := trace m |}.

Definition set_expected_disconnect (v : bool) (m : machine) : machine :=
  {| _state := _state m; _write_char := _write_char m;
     _disconnect_timer := _disconnect_timer m; _client := _client m;
     _expected_disconnect := v;
     _update_callback := _update_callback m; env := env m;
     connect_calls := connect_calls m; write_calls := write_calls m;
     trace := trace m |}.

Definition set_update_callback_field (v : option callback) (m : machine) : machine :=
  {| _state := _state m; _write_char := _write_char m;
     _disconnect_timer := _disconnect_timer m; _client := _client m;
     _expected_disconnect := _expected_disconnect m;
     _update_callback := v; env := env m;
     connect_calls := connect_calls m; write_calls := write_calls m;
     trace := trace m |}.

Definition count_connect_call (m : machine) : machine :=
  {| _state := _state m; _write_char := _write_char m;
     _disconnect_timer := _disconnect_timer m; _client := _client m;
     _expected_disconnect := _expected_disconnect m;
     _update_callback := _update_callback m; env := env m;
     connect_calls := S (connect_calls m); write_calls := write_calls m;
     trace := trace m |}.

Definition count_write_call (m : machine) : machine :=
  {| _state := _state m; _write_char := _write_char m;
     _disconnect_timer := _disconnect_timer m; _client := _client m;
     _expected_disconnect := _expected_disconnect m;
     _update_callback := _update_callback m; env := env m;
     connect_calls := connect_calls m; write_calls := S (write_calls m);
     trace := trace m |}.

Definition log_event (ev : event) (m : machine) : machine :=
  {| _state := _state m; _write_char := _write_char m;
     _disconnect_timer := _disconnect_timer m; _client := _client m;
     _expected_disconnect := _expected_disconnect m;
     _update_callback := _update_callback m; env := env m;
     connect_calls := connect_calls m; write_calls := write_calls m;
     trace := trace m ++ [ev] |}.

(** [FindnLedDevice.__init__] over a given transport script. *)
Definition FindnLedDevice (t : transport) : machine :=
  {| _state := FindnLedState_default; _write_char := None;
     _disconnect_timer := None; _client := None;
     _expected_disconnect := false; _update_callback := None; env := t;
     connect_calls := 0%nat; write_calls := 0%nat; trace := [] |}.

(** ** Coroutines: state passing with exceptions *)

(** A coroutine of the device, run to completion: the outcome and the
    machine it leaves behind.  What a raising coroutine did to the machine
    before it raised stays done. *)
Definition M (A : Type) : Type := machine -> result A * machine.

Definition ret {A : Type} (a : A) : M A := fun m => (Return a, m).

Definition raise {A : Type} (e : exn) : M A := fun m => (Raise e, m).

Definition bind {A B : Type} (c : M A) (k : A -> M B) : M B :=
  fun m =>
    match c m with
    | (Return a, m') => k a m'
    | (Raise e, m') => (Raise e, m')
    end.

(** [try: c  except Exception as ex: handler(ex)]. *)
Definition try_except {A : Type} (c : M A) (handler : exn -> M A) : M A :=
  fun m =>
    match c m with
    | (Return a, m') => (Return a, m')
    | (Raise e, m') => handler e m'
    end.

Declare Scope coroutine_scope.
Delimit Scope coroutine_scope with coroutine.
Notation "x <- c ;; k" := (bind c (fun x => k))
  (at level 61, c at next level, right associativity) : coroutine_scope.
Notation "c ;; k" := (bind c (fun _ => k))
  (at level 61, right associativity) : coroutine_scope.
Local Open Scope coroutine_scope.

Definition get : M machine := fun m => (Return m, m).

Definition modify (f : machine -> machine) : M unit := fun m => (Return tt, f m).

Definition emit (ev : event) : M unit := modify (log_event ev).

(** The outcome of evaluating an argument expression, inside a coroutine. *)
Definition lift {A : Type} (r : result A) : M A :=
  match r with
  | Return a => ret a
  | Raise e => raise e
  end.

(** [async with lock: body]; the lock is released whether [body] returns or
    raises. *)
Definition async_with {A : Type} (l : lock) (body : M A) : M A :=
  fun m =>
    match body (log_event (EvAcquire l) m) with
    | (r, m') => (r, log_event (EvRelease l) m')
    end.

(** ** The transport's primitives *)

(** [asyncio.sleep(delay)]. *)
Definition sleep (delay : Q) : M unit := emit (EvSleep delay).

(** [establish_connection(BleakClientWithServiceCache, ...)]: the next
    outcome of the script; the client it returns is connected. *)
Definition establish_connection : M client :=
  fun m =>
    let m' := log_event EvEstablishConnection (count_connect_call m) in
    match establish_connection_outcome (env m) (connect_calls m) with
    | Return (cached, fetched) =>
        (Return {| is_connected := true; services := cached;
                   get_services := fetched |}, m')
    | Raise e => (Raise e, m')
    end.

(** [await client.get_services()], looked up for the write characteristic. *)
Definition client_get_services (c : client) : M (option characteristic) :=
  emit EvGetServices ;; ret (get_services c).

(** [client.write_gatt_char(char, command, response=False)] on the device's
    client: the next outcome of the script.  When the write raises and the
    link went down with it, the client no longer reports connected. *)
Definition write_gatt_char (char : characteristic) (command : list Z) : M unit :=
  fun m =>
    let m' := log_event (EvWrite char command) (count_write_call m) in
    match write_gatt_char_outcome (env m) (write_calls m) with
    | WriteOk => (Return tt, m')
    | WriteRaises e link_up =>
        (Raise e,
         match _client m' with
         | Some c =>
             set_client
               (Some {| is_connected := is_connected c && link_up;
                        services := services c;
                        get_services := get_services c |}) m'
         | None => m'
         end)
    end.

(** [client.disconnect()].  The event carries [_expected_disconnect] as it
    stands when the call is made, which is what the [_disconnected] callback
    reads when the transport reports the link closed. *)
Definition client_disconnect : M unit :=
  fun m => (Return tt, log_event (EvClientDisconnect (_expected_disconnect m)) m).

(** [self._client and self._client.is_connected]. *)
Definition client_is_connected (m : machine) : bool :=
  match _client m with
  | Some c => is_connected c
  | None => false
  end.

(** ** device.py: connection manager *)

(** Modelled from the spec: the decorator [retry_bluetooth_connection_error]
    of [bleak_retry_connector], which device.py imports and which is not part
    of the repository.  The spec describes it as a bounded retry policy: up
    to [attempts] total attempts, retrying only on transport-fault classes
    (not on characteristic-missing or logic errors); on exhausting retries
    the last fault is returned to the caller as-is. *)
Definition retryable (e : exn) : bool := is_BleakError e.

Fixpoint retry_bluetooth_connection_error
    (attempts : nat) (func : M unit) : M unit :=
  match attempts with
  | O => ret tt
  | S O => func
  | S (S _ as remaining) =>
      try_except func
        (fun ex =>
           if retryable ex
           then retry_bluetooth_connection_error remaining func
           else raise ex)
  end.

Definition update_callback : M unit :=
  m <- get ;;
  match _update_callback m with
  | Some cb => emit (EvCallback cb (_state m))
  | None => ret tt
  end.

Definition set_update_callback (cb : callback) : M unit :=
  modify (set_update_callback_field (Some cb)).

Definition _reset_disconnect_timer : M unit :=
  m <- get ;;
  match _disconnect_timer m with
  | Some _ => emit EvTimerCancel
  | None => ret tt
  end ;;
  modify (set_expected_disconnect false) ;;
  emit (EvCallLater DISCONNECT_DELAY) ;;
  modify (set_disconnect_timer (Some DISCONNECT_DELAY)).

(** [services] is the lookup of [WRITE_CHARACTERISTIC_UUID] in the service
    collection passed in. *)
Definition _resolve_characteristics (services : option characteristic) : M bool :=
  match services with
  | Some char => modify (set_write_char (Some char))
  | None => ret tt
  end ;;
  m <- get ;;
  ret (match _write_char m with Some _ => true | None => false end).

Definition _ensure_connected : M unit :=
  m <- get ;;
  if client_is_connected m then _reset_disconnect_timer
  else
    async_with _connect_lock
      (m <- get ;;
       if client_is_connected m then _reset_disconnect_timer
       else
         client <- establish_connection ;;
         resolved <- _resolve_characteristics (services client) ;;
         (if negb resolved
          then
            fetched <- client_get_services client ;;
            _resolve_characteristics fetched
          else ret resolved) ;;
         modify (set_client (Some client)) ;;
         _reset_disconnect_timer).

(** The disconnected callback only logs. *)
Definition _disconnected : M unit := ret tt.

Definition _execute_disconnect : M unit :=
  async_with _connect_lock
    (m <- get ;;
     let client := _client m in
     modify (set_expected_disconnect true) ;;
     modify (set_client None) ;;
     modify (set_write_char None) ;;
     match client with
     | Some c => if is_connected c then client_disconnect else ret tt
     | None => ret tt
     end).

Definition _execute_timed_disconnect : M unit := _execute_disconnect.

(** The timer callback; the task it creates is run at once. *)
Definition _disconnect : M unit :=
  modify (set_disconnect_timer None) ;;
  _execute_timed_disconnect.

(** ** device.py: command dispatcher *)

Fixpoint write_commands (char : characteristic) (commands : list (list Z)) : M unit :=
  match commands with
  | [] => ret tt
  | command :: rest => write_gatt_char char command ;; write_commands char rest
  end.

Definition _execute_command_locked (commands : list (list Z)) : M unit :=
  m <- get ;;
  match _client m with
  | None => raise AssertionError
  | Some _ =>
      match _write_char m with
      | None => raise CharacteristicMissingError
      | Some char => write_commands char commands
      end
  end.

(** The body of [_send_command_locked], before the decorator is applied. *)
Definition _send_command_locked_body (commands : list (list Z)) : M unit :=
  try_except (_execute_command_locked commands)
    (fun ex =>
       if is_BleakDBusError ex then
         sleep BLEAK_BACKOFF_TIME ;;
         _execute_disconnect ;;
         raise ex
       else if is_BleakError ex then
         _execute_disconnect ;;
         raise ex
       else raise ex).

Definition _send_command_locked (commands : list (list Z)) : M unit :=
  retry_bluetooth_connection_error DEFAULT_ATTEMPTS
    (_send_command_locked_body commands).

(** The three [except] clauses log and re-raise. *)
Definition _send_command_while_connected (commands : list (list Z)) : M unit :=
  async_with _operation_lock
    (try_except (_send_command_locked commands) (fun ex => raise ex)).

(** [commands] is either one [bytes] object or a list of them. *)
Definition _send_command (commands : list Z + list (list Z)) : M unit :=
  _ensure_connected ;;
  let commands :=
    match commands with
    | inl command => [command]
    | inr commands => commands
    end in
  _send_command_while_connected commands.

(** ** device.py: device facade *)

Definition update : M unit := _ensure_connected.

Definition turn_on : M unit :=
  _send_command (inl FindnLedBLEProtocol.turn_on_command) ;;
  modify (fun m => set_state (replace_power (_state m) true) m) ;;
  update_callback.

Definition turn_off : M unit :=
  _send_command (inl FindnLedBLEProtocol.turn_off_command) ;;
  modify (fun m => set_state (replace_power (_state m) false) m) ;;
  update_callback.

Definition set_brightness (brightness : Z) : M unit :=
  command <- lift (FindnLedBLEProtocol.construct_set_brightness_cmd brightness) ;;
  _send_command (inl command) ;;
  modify (fun m => set_state (replace_brightness (_state m) brightness) m) ;;
  update_callback.

Definition set_hs_color (hs : Q * Q) : M unit :=
  command <- lift (FindnLedBLEProtocol.construct_set_hs_color_cmd hs) ;;
  _send_command (inl command) ;;
  modify (fun m => set_state (replace_hs (_state m) hs) m) ;;
  update_callback.

Definition set_effect (effect : Z) : M unit :=
  commands <- lift (FindnLedBLEProtocol.construct_set_effect_cmd effect) ;;
  _send_command (inr commands) ;;
  modify (fun m => set_state (replace_effect (_state m) effect) m) ;;
  update_callback.

Definition stop : M unit := _execute_disconnect.

(** ** Vocabulary of the statements *)

(** The five public commands, what each hands to [_send_command] and the
    state each commits. *)
Inductive command : Type :=
| TurnOn
| TurnOff
| SetBrightness (brightness : Z)
| SetHsColor (hs : Q * Q)
| SetEffect (effect : Z).

Definition run_command (c : command) : M unit :=
  match c with
  | TurnOn => turn_on
  | TurnOff => turn_off
  | SetBrightness brightness => set_brightness brightness
  | SetHsColor hs => set_hs_color hs
  | SetEffect effect => set_effect effect
  end.

Definition frames_of (c : command) : result (list Z + list (list Z)) :=
  match c with
  | TurnOn => Return (inl FindnLedBLEProtocol.turn_on_command)
  | TurnOff => Return (inl FindnLedBLEProtocol.turn_off_command)
  | SetBrightness brightness =>
      match FindnLedBLEProtocol.construct_set_brightness_cmd brightness with
      | Return frame => Return (inl frame)
      | Raise e => Raise e
      end
  | SetHsColor hs =>
      match FindnLedBLEProtocol.construct_set_hs_color_cmd hs with
      | Return frame => Return (inl frame)
      | Raise e => Raise e
      end
  | SetEffect effect =>
      match FindnLedBLEProtocol.construct_set_effect_cmd effect with
      | Return frames => Return (inr frames)
      | Raise e => Raise e
      end
  end.

Definition committed (c : command) (s : FindnLedState) : FindnLedState :=
  match c with
  | TurnOn => replace_power s true
  | TurnOff => replace_power s false
  | SetBrightness brightness => replace_brightness s brightness
  | SetHsColor hs => replace_hs s hs
  | SetEffect effect => replace_effect s effect
  end.

(** The invocations of the registered update callback in a trace, each with
    the state it found. *)
Fixpoint notifications (tr : list event) : list (callback * FindnLedState) :=
  match tr with
  | [] => []
  | EvCallback cb seen :: rest => (cb, seen) :: notifications rest
  | _ :: rest => notifications rest
  end.

(** What a caller of the facade can see of the device. *)
Definition facade_view (m : machine)
  : FindnLedState * option callback * list (callback * FindnLedState) :=
  (_state m, _update_callback m, notifications (trace m)).

(** A coroutine that leaves the facade's view as it found it, whatever its
    outcome. *)
Definition quiet {A : Type} (c : M A) : Prop :=
  forall m, facade_view (snd (c m)) = facade_view m.

(** The events of one [_execute_disconnect] from machine [m]. *)
Definition disconnect_events (m : machine) : list event :=
  EvAcquire _connect_lock
  :: (if client_is_connected m then [EvClientDisconnect true] else [])
  ++ [EvRelease _connect_lock].

Definition disconnected (m : machine) : Prop :=
  _client m = None /\ _write_char m = None /\ _expected_disconnect m = true.

(** The events of one [_reset_disconnect_timer] from machine [m]. *)
Definition timer_events (m : machine) : list event :=
  (match _disconnect_timer m with Some _ => [EvTimerCancel] | None => [] end)
  ++ [EvCallLater DISCONNECT_DELAY].

(** What [_write_char] holds after the two lookups [_ensure_connected] makes
    on a fresh client: the cached one, else what was there before, else the
    refetched one. *)
Definition resolved_characteristic
    (before cached fetched : option characteristic) : option characteristic :=
  match cached with
  | Some char => Some char
  | None =>
      match before with
      | Some char => Some char
      | None => fetched
      end
  end.

(** The events of the refetch: one [get_services] call when the first
    resolution returned false, none otherwise. *)
Definition refetch_events
    (before cached : option characteristic) : list event :=
  match cached, before with
  | None, None => [EvGetServices]
  | _, _ => []
  end.

(** The frames written in a trace, in order, each with the characteristic
    it was written to. *)
Fixpoint writes (tr : list event) : list (characteristic * list Z) :=
  match tr with
  | [] => []
  | EvWrite char command :: rest => (char, command) :: writes rest
  | _ :: rest => writes rest
  end.

(** ** Transport scripts and machines used as concrete inputs *)

(** Every connect succeeds and finds the write characteristic 7; the write
    outcomes are given. *)
Definition reachable (writes : nat -> write_outcome) : transport :=
  {| establish_connection_outcome := fun _ => Return (Some 7%nat, Some 7%nat);
     write_gatt_char_outcome := writes |}.

Definition always_ok : transport := reachable (fun _ => WriteOk).

(** Every write raises [e], the link staying up. *)
Definition always_failing (e : exn) : transport :=
  reachable (fun _ => WriteRaises e true).

(** Only the first write raises [e]. *)
Definition failing_once (e : exn) : transport :=
  reachable (fun n => match n with O => WriteRaises e true | S _ => WriteOk end).

(** Every connect succeeds, and neither the cached services nor the
    refetched ones hold the write characteristic. *)
Definition no_characteristic : transport :=
  {| establish_connection_outcome := fun _ => Return (None, None);
     write_gatt_char_outcome := fun _ => WriteOk |}.

(** A device after a first successful [update()]. *)
Definition connected_device (t : transport) : machine :=
  snd (update (FindnLedDevice t)).

(** ** Claims that the code does not meet, as they are stated *)



(** ** Vocabulary of the further statements *)

(** The frames [_send_command] sends for its argument: a single [bytes]
    object is wrapped in a list (device.py lines 295-296). *)
Definition frame_list (commands : list Z + list (list Z)) : list (list Z) :=
  match commands with
  | inl command => [command]
  | inr commands => commands
  end.

(** A frame of the protocol: the header [0xBC], an opcode, the length of
    the payload, the payload, the trailer [0x55], all of them bytes. *)
Definition well_formed_frame (frame : list Z) : bool :=
  forallb byte_ok frame
  && (nth 0 frame (-1) =? 0xBC)
  && (nth 2 frame (-1) =? Z.of_nat (length frame) - 4)
  && (last frame (-1) =? 0x55).

Definition lock_eqb (l1 l2 : lock) : bool :=
  match l1, l2 with
  | _operation_lock, _operation_lock => true
  | _connect_lock, _connect_lock => true
  | _, _ => false
  end.

(** Replays the lock events of [evs] from the stack [held] of locks held,
    the one acquired last on top: the stack at the end, or [None] when a
    lock is acquired that is held already (an [asyncio.Lock] cannot be
    entered twice: the coroutine would wait for itself) or a release is not
    of the lock acquired last. *)
Fixpoint lock_run (held : list lock) (evs : list event) : option (list lock) :=
  match evs with
  | [] => Some held
  | EvAcquire l :: rest =>
      if existsb (lock_eqb l) held then None else lock_run (l :: held) rest
  | EvRelease l :: rest =>
      match held with
      | top :: held' => if lock_eqb l top then lock_run held' rest else None
      | [] => None
      end
  | _ :: rest => lock_run held rest
  end.

(** A coroutine that, started with the locks [held], only appends to the
    trace, never enters a lock twice and ends with the locks it started
    with, whatever its outcome. *)
Definition disciplined {A : Type} (held : list lock) (c : M A) : Prop :=
  forall m,
    exists evs,
      trace (snd (c m)) = trace m ++ evs /\ lock_run held evs = Some held.

(** The script lets the next [n] writes of machine [m] succeed. *)
Definition writes_succeed (m : machine) (n : nat) : Prop :=
  forall i, (i < n)%nat ->
    write_gatt_char_outcome (env m) (write_calls m + i) = WriteOk.

(** The machine after the frames [commands] were written to [char], one
    transport call each, all of them succeeding. *)
Definition after_writes
    (char : characteristic) (commands : list (list Z)) (m : machine) : machine :=
  {| _state := _state m; _write_char := _write_char m;
     _disconnect_timer := _disconnect_timer m; _client := _client m;
     _expected_disconnect := _expected_disconnect m;
     _update_callback := _update_callback m; env := env m;
     connect_calls := connect_calls m;
     write_calls := write_calls m + length commands;
     trace := trace m ++ map (EvWrite char) commands |}.

(** No connect succeeds: each raises [e]. *)
Definition unreachable (e : exn) : transport :=
  {| establish_connection_outcome := fun _ => Raise e;
     write_gatt_char_outcome := fun _ => WriteOk |}.

(** The first connect finds the write characteristic 7; every later one
    finds none in the client's services and 9 after a refetch.  The first
    write raises [TimeoutError] and takes the link down; later writes
    succeed. *)
Definition link_lost_once : transport :=
  {| establish_connection_outcome :=
       fun n =>
         match n with
         | O => Return (Some 7%nat, Some 7%nat)
         | S _ => Return (None, Some 9%nat)
         end;
     write_gatt_char_outcome :=
       fun n =>
         match n with
         | O => WriteRaises TimeoutError false
         | S _ => WriteOk
         end |}.

(** What holds of a device between operations: a write characteristic is
    only kept together with the client it was resolved on, and a client is
    never kept without an idle timer pending to tear it down. *)
Definition connection_invariant (m : machine) : Prop :=
  (_client m = None -> _write_char m = None) /\
  (_client m <> None -> _disconnect_timer m <> None).

(** A coroutine that keeps the invariant, whatever its outcome. *)
Definition keeps_invariant {A : Type} (c : M A) : Prop :=
  forall m, connection_invariant m -> connection_invariant (snd (c m)).

(** ** light.py *)

(** The keyword arguments [async_turn_on] looks at, [None] when absent. *)
Record kwargs : Type := {
  ATTR_HS_COLOR : option (Q * Q);
  ATTR_BRIGHTNESS : option Z;
  ATTR_EFFECT : option String.string
}.

Module FindnLedLight.

(** [int] is the builtin [int(_, base=0)] on strings, which returns the
    integer a literal denotes or raises [ValueError].  A 2-tuple is truthy;
    an integer is truthy unless it is 0; a string is truthy unless it is
    empty. *)
Definition async_turn_on
    (int : String.string -> result Z) (kw : kwargs) : M unit :=
  match ATTR_HS_COLOR kw with
  | Some hs => set_hs_color hs
  | None => ret tt
  end ;;
  match ATTR_BRIGHTNESS kw with
  | Some brightness =>
      if brightness =? 0 then ret tt else set_brightness brightness
  | None => ret tt
  end ;;
  match ATTR_EFFECT kw with
  | Some String.EmptyString | None => ret tt
  | Some effect =>
      effect <- lift (int effect) ;;
      set_effect effect
  end ;;
  m <- get ;;
  if negb (power (_state m)) then turn_on else ret tt.

Definition async_turn_off : M unit := turn_off.

End FindnLedLight.


(** * Facts about the builtins *)

Lemma round_nearest (x : Q) :
  2 * Z.abs (round x * Zpos (Qden x) - Qnum x) <= Zpos (Qden x).
Proof.
  unfold round.
  set (n := Qnum x). set (d := Zpos (Qden x)).
  assert (Hd : 0 < d) by (subst d; lia).
  pose proof (Z.div_mod n d ltac:(lia)) as Hdm.
  pose proof (Z.mod_pos_bound n d Hd) as Hr.
  destruct (Z.compare_spec (2 * (n mod d)) d) as [He | Hl | Hg];
    [destruct (Z.even (n / d)) | | ]; nia.
Qed.

Lemma round_between (x : Q) (a b : Z) :
  (inject_Z a <= x)%Q -> (x <= inject_Z b)%Q -> a <= round x <= b.
Proof.
  unfold Qle, round; cbn [inject_Z Qnum Qden].
  set (n := Qnum x). set (d := Zpos (Qden x)).
  intros Ha Hb.
  assert (Hd : 0 < d) by (subst d; lia).
  pose proof (Z.div_mod n d ltac:(lia)) as Hdm.
  pose proof (Z.mod_pos_bound n d Hd) as Hr.
  assert (a <= n / d) by (apply Z.div_le_lower_bound; lia).
  assert (n / d <= b) by (apply Z.div_le_upper_bound; lia).
  destruct (Z.compare_spec (2 * (n mod d)) d) as [He | Hl | Hg];
    [destruct (Z.even (n / d)) | | ]; nia.
Qed.

Lemma bytes_in_range (l : list Z) :
  Forall (fun b => 0 <= b <= 255) l -> bytes l = Return l.
Proof.
  intros H. unfold bytes.
  replace (forallb byte_ok l) with true; [reflexivity |].
  symmetry. apply forallb_forall. intros b Hb.
  rewrite Forall_forall in H. specialize (H b Hb).
  unfold byte_ok. lia.
Qed.

Lemma bytes_out_of_range (l : list Z) (b : Z) :
  In b l -> 255 < b -> bytes l = Raise ValueError.
Proof.
  intros Hin Hb. unfold bytes.
  destruct (forallb byte_ok l) eqn:E; [| reflexivity].
  rewrite forallb_forall in E. specialize (E b Hin).
  unfold byte_ok in E. lia.
Qed.

Lemma hi_lo_in_range (v : Z) :
  0 <= v <= 65535 -> 0 <= v / 256 <= 255 /\ 0 <= v mod 256 <= 255.
Proof.
  intros H.
  pose proof (Z.mod_pos_bound v 256 ltac:(lia)).
  assert (0 <= v / 256) by (apply Z.div_pos; lia).
  assert (v / 256 < 256) by (apply Z.div_lt_upper_bound; lia).
  lia.
Qed.

(** * The effect command *)




(** * The encoder's frames *)

Lemma brightness_to_value_bounds (level : Z) :
  1 <= level <= 255 ->
  (inject_Z 100 <=
     brightness_to_value FindnLedBLEProtocol._BRIGHTESS_SCALE_RANGE level)%Q /\
  (brightness_to_value FindnLedBLEProtocol._BRIGHTESS_SCALE_RANGE level <=
     inject_Z 1000)%Q.
Proof.
  intros [Hlo Hhi].
  cbv [brightness_to_value FindnLedBLEProtocol._BRIGHTESS_SCALE_RANGE
       Qle Qplus Qmult Qdiv Qinv inject_Z Qnum Qden].
  lia.
Qed.

(** C5: for every brightness level from 1 to 255,
    [construct_set_brightness_cmd] returns the single 10-byte frame [0xBC
    0x05 0x06 hi lo 0 0 0 0 0x55], where [scaled = round(100 + (level - 1) /
    254 * 900)], [hi = scaled div 256] and [lo = scaled mod 256]; [scaled]
    lies between 100 and 1000 and is the integer nearest to the rescaled
    level (no level falls on a tie); the trailer byte is 0x55. *)
Theorem construct_set_brightness_cmd_frame (level : Z) :
  1 <= level <= 255 ->
  let scaled := round (100 + inject_Z (level - 1) / 254 * 900)%Q in
  FindnLedBLEProtocol.construct_set_brightness_cmd level =
    Return [0xBC; 0x05; 0x06; scaled / 256; scaled mod 256;
            0x00; 0x00; 0x00; 0x00; 0x55] /\
  100 <= scaled <= 1000 /\
  2 * Z.abs (254 * scaled - (25400 + 900 * (level - 1))) < 254.
Proof.
  intros Hlevel scaled.
  destruct (brightness_to_value_bounds level Hlevel) as [Hlow Hhigh].
  assert (Hs : 100 <= scaled <= 1000) by (apply round_between; assumption).
  destruct (hi_lo_in_range scaled ltac:(lia)) as [Hhi Hlo].
  split; [| split; [exact Hs |]].
  - unfold FindnLedBLEProtocol.construct_set_brightness_cmd.
    change (round (brightness_to_value
                     FindnLedBLEProtocol._BRIGHTESS_SCALE_RANGE level))
      with scaled.
    apply bytes_in_range. repeat constructor; lia.
  - pose proof (round_nearest (100 + inject_Z (level - 1) / 254 * 900)%Q) as Hn.
    fold scaled in Hn.
    cbv [Qplus Qmult Qdiv Qinv inject_Z Qnum Qden] in Hn.
    lia.
Qed.

Lemma construct_set_brightness_cmd_frame_witness :
  1 <= 128 <= 255 /\
  FindnLedBLEProtocol.construct_set_brightness_cmd 128 =
    Return [0xBC; 0x05; 0x06; 2; 38; 0x00; 0x00; 0x00; 0x00; 0x55].
Proof.
  split; [lia |].
  exact (proj1 (construct_set_brightness_cmd_frame 128 ltac:(lia))).
Defined.





(** * The connection manager *)

Lemma notifications_app (tr1 tr2 : list event) :
  notifications (tr1 ++ tr2) = notifications tr1 ++ notifications tr2.
Proof.
  induction tr1 as [| ev tr1 IH]; [reflexivity |].
  destruct ev; cbn; rewrite ?IH; reflexivity.
Qed.

(** Closes the side goals of a run that was computed symbolically: the
    fields by computation, the trace up to associativity, the facade's view
    because no callback event was logged. *)
Ltac run_facts :=
  repeat split;
  unfold facade_view; cbn;
  rewrite <- ?app_assoc, ?notifications_app; cbn;
  rewrite ?app_nil_r; first [reflexivity | assumption | symmetry; assumption].

Lemma _execute_disconnect_spec (m : machine) :
  exists m',
    _execute_disconnect m = (Return tt, m') /\
    disconnected m' /\
    trace m' = trace m ++ disconnect_events m /\
    facade_view m' = facade_view m /\
    _disconnect_timer m' = _disconnect_timer m /\
    env m' = env m /\
    connect_calls m' = connect_calls m /\
    write_calls m' = write_calls m.
Proof.
  unfold _execute_disconnect, disconnect_events, client_is_connected,
    disconnected.
  cbv [async_with bind get modify ret client_disconnect]. cbn.
  destruct (_client m) as [c |]; [destruct (is_connected c) |]; cbn;
    eexists; (split; [reflexivity |]); run_facts.
Qed.

Lemma _reset_disconnect_timer_spec (m : machine) :
  exists m',
    _reset_disconnect_timer m = (Return tt, m') /\
    _disconnect_timer m' = Some DISCONNECT_DELAY /\
    _expected_disconnect m' = false /\
    trace m' = trace m ++ timer_events m /\
    _client m' = _client m /\
    _write_char m' = _write_char m /\
    facade_view m' = facade_view m /\
    env m' = env m /\
    connect_calls m' = connect_calls m /\
    write_calls m' = write_calls m.
Proof.
  unfold _reset_disconnect_timer, timer_events.
  cbv [bind get modify ret emit]. cbn.
  destruct (_disconnect_timer m); cbn;
    eexists; (split; [reflexivity |]); run_facts.
Qed.

Lemma _ensure_connected_when_connected (m : machine) :
  client_is_connected m = true ->
  _ensure_connected m = _reset_disconnect_timer m.
Proof.
  intros H. unfold _ensure_connected. cbv [bind get]. rewrite H. reflexivity.
Qed.

Lemma _ensure_connected_unreachable (m : machine) (e : exn) :
  client_is_connected m = false ->
  establish_connection_outcome (env m) (connect_calls m) = Raise e ->
  exists m',
    _ensure_connected m = (Raise e, m') /\
    _client m' = _client m /\
    _write_char m' = _write_char m /\
    trace m' =
      trace m ++
      EvAcquire _connect_lock :: [EvEstablishConnection]
      ++ [EvRelease _connect_lock] /\
    facade_view m' = facade_view m.
Proof.
  intros Hnot Hout. unfold _ensure_connected.
  destruct m as [st wc dt cl ed cb t cc wcalls tr].
  cbv [bind get async_with establish_connection].
  unfold client_is_connected in *. cbn in *.
  rewrite Hnot. cbn. rewrite Hnot. cbn. rewrite Hout. cbn.
  eexists; (split; [reflexivity |]); run_facts.
Qed.

Lemma _ensure_connected_connects
    (m : machine) (cached fetched : option characteristic) :
  client_is_connected m = false ->
  establish_connection_outcome (env m) (connect_calls m) =
    Return (cached, fetched) ->
  exists m',
    _ensure_connected m = (Return tt, m') /\
    _client m' =
      Some {| is_connected := true; services := cached;
              get_services := fetched |} /\
    _write_char m' = resolved_characteristic (_write_char m) cached fetched /\
    _disconnect_timer m' = Some DISCONNECT_DELAY /\
    _expected_disconnect m' = false /\
    trace m' =
      trace m ++
      EvAcquire _connect_lock :: [EvEstablishConnection]
      ++ refetch_events (_write_char m) cached
      ++ timer_events m ++ [EvRelease _connect_lock] /\
    facade_view m' = facade_view m /\
    env m' = env m /\
    connect_calls m' = S (connect_calls m) /\
    write_calls m' = write_calls m.
Proof.
  intros Hnot Hout.
  unfold _ensure_connected, _resolve_characteristics,
    _reset_disconnect_timer, client_get_services.
  destruct m as [st wc dt cl ed cb t cc wcalls tr].
  cbv [bind get modify ret emit async_with establish_connection].
  unfold client_is_connected in *. cbn in *.
  rewrite Hnot. cbn. rewrite Hnot. cbn. rewrite Hout. cbn.
  unfold resolved_characteristic, refetch_events, timer_events.
  destruct wc as [char' |], dt as [delay |],
    cached as [char |], fetched as [char'' |];
    cbn; eexists; (split; [reflexivity |]); run_facts.
Qed.

(** C9: every explicit disconnect, [stop()] as well as the idle-timeout
    teardown ([_execute_timed_disconnect], and the timer callback
    [_disconnect] that starts it), is [_execute_disconnect]: it returns
    normally, holds [_connect_lock] from its first event to its last, which
    is the lock [_ensure_connected] takes to connect, calls the transport's
    disconnect only with the expected-disconnect flag already set, and
    leaves the client handle and the write characteristic cleared whether or
    not the client was connected. *)
Theorem explicit_disconnect_effects (m : machine) :
  (forall teardown,
     In teardown [stop; _execute_timed_disconnect; _execute_disconnect] ->
     exists m',
       teardown m = (Return tt, m') /\
       _expected_disconnect m' = true /\
       _client m' = None /\
       _write_char m' = None /\
       trace m' =
         trace m ++
         EvAcquire _connect_lock
         :: (if client_is_connected m then [EvClientDisconnect true] else [])
         ++ [EvRelease _connect_lock]) /\
  (exists m',
     _disconnect m = (Return tt, m') /\
     _disconnect_timer m' = None /\
     _expected_disconnect m' = true /\
     _client m' = None /\
     _write_char m' = None /\
     trace m' =
       trace m ++
       EvAcquire _connect_lock
       :: (if client_is_connected m then [EvClientDisconnect true] else [])
       ++ [EvRelease _connect_lock]) /\
  (client_is_connected m = false ->
   exists r m' events,
     _ensure_connected m = (r, m') /\
     trace m' =
       trace m ++ EvAcquire _connect_lock :: events ++ [EvRelease _connect_lock]).
Proof.
  split; [| split].
  - intros teardown Hin.
    assert (Hsame : teardown = _execute_disconnect).
    { cbn in Hin. destruct Hin as [H | [H | [H | []]]]; symmetry; exact H. }
    subst teardown.
    destruct (_execute_disconnect_spec m)
      as (m' & Hrun & (Hc & Hw & He) & Htr & _).
    exists m'. repeat split; assumption.
  - unfold _disconnect, _execute_timed_disconnect, _execute_disconnect.
    destruct m as [st wc dt cl ed cb t cc wcalls tr].
    cbv [async_with bind get modify ret client_disconnect].
    unfold client_is_connected. cbn.
    destruct cl as [c |]; [destruct (is_connected c) |]; cbn;
      eexists; (split; [reflexivity |]); run_facts.
  - intros Hnot.
    destruct (establish_connection_outcome (env m) (connect_calls m))
      as [[cached fetched] | e] eqn:Hout.
    + destruct (_ensure_connected_connects m cached fetched Hnot Hout)
        as (m' & Hrun & _ & _ & _ & _ & Htr & _).
      exists (Return tt), m',
        (EvEstablishConnection
         :: refetch_events (_write_char m) cached ++ timer_events m).
      split; [exact Hrun |].
      rewrite Htr. cbn. rewrite <- app_assoc. reflexivity.
    + destruct (_ensure_connected_unreachable m e Hnot Hout)
        as (m' & Hrun & _ & _ & Htr & _).
      exists (Raise e), m', [EvEstablishConnection].
      split; [exact Hrun |].
      rewrite Htr. reflexivity.
Qed.

(** * The command dispatcher *)

(** C7: when [_execute_command_locked] raises, [_send_command_locked]'s body
    classifies the fault and raises it again unchanged: for a transient bus
    fault ([BleakDBusError]) it first sleeps [BLEAK_BACKOFF_TIME], which is
    0.25, and then runs the forced disconnect; for any other transport fault
    ([BleakError]) it runs the forced disconnect with no sleep; for a fault
    outside the transport classes, [CharacteristicMissingError] among them,
    it does nothing at all. *)
Theorem fault_classification
    (commands : list (list Z)) (m m1 : machine) (e : exn) :
  _execute_command_locked commands m = (Raise e, m1) ->
  exists m2,
    _send_command_locked_body commands m = (Raise e, m2) /\
    (is_BleakDBusError e = true ->
     disconnected m2 /\
     trace m2 =
       trace m1 ++ EvSleep BLEAK_BACKOFF_TIME :: disconnect_events m1) /\
    (is_BleakDBusError e = false -> is_BleakError e = true ->
     disconnected m2 /\ trace m2 = trace m1 ++ disconnect_events m1) /\
    (is_BleakError e = false -> m2 = m1) /\
    (BLEAK_BACKOFF_TIME == 1 # 4)%Q /\
    is_BleakError CharacteristicMissingError = false.
Proof.
  intros Hraise.
  unfold _send_command_locked_body, try_except. rewrite Hraise.
  destruct (is_BleakDBusError e) eqn:Hbus;
    [| destruct (is_BleakError e) eqn:Hbleak].
  - cbv [bind sleep emit modify].
    destruct (_execute_disconnect_spec (log_event (EvSleep BLEAK_BACKOFF_TIME) m1))
      as (m2 & Hrun & Hdisc & Htr & _).
    rewrite Hrun. exists m2.
    split; [reflexivity |]. split; [| split; [| split; [| split]]];
      try discriminate; try reflexivity.
    + intros _. split; [exact Hdisc |].
      rewrite Htr. cbn. rewrite <- app_assoc. reflexivity.
    + destruct e; discriminate.
  - cbv [bind].
    destruct (_execute_disconnect_spec m1) as (m2 & Hrun & Hdisc & Htr & _).
    rewrite Hrun. exists m2.
    split; [reflexivity |]. split; [| split; [| split; [| split]]];
      try discriminate; try reflexivity.
    intros _ _. split; assumption.
  - exists m1.
    split; [reflexivity |]. split; [| split; [| split; [| split]]];
      try discriminate; reflexivity.
Qed.

Lemma fault_classification_witness :
  exists m2,
    _send_command_locked_body [FindnLedBLEProtocol.turn_on_command]
      (connected_device (always_failing BleakDBusError)) =
      (Raise BleakDBusError, m2) /\
    disconnected m2 /\
    trace m2 =
      [EvAcquire _connect_lock; EvEstablishConnection;
       EvCallLater DISCONNECT_DELAY; EvRelease _connect_lock;
       EvWrite 7%nat [0xBC; 0x01; 0x01; 0x01; 0x55];
       EvSleep BLEAK_BACKOFF_TIME;
       EvAcquire _connect_lock; EvClientDisconnect true;
       EvRelease _connect_lock].
Proof.
  pose (m := connected_device (always_failing BleakDBusError)).
  pose (m1 := snd (_execute_command_locked
                     [FindnLedBLEProtocol.turn_on_command] m)).
  vm_compute in m1.
  assert (Hraise :
    _execute_command_locked [FindnLedBLEProtocol.turn_on_command] m =
    (Raise BleakDBusError, m1)) by (vm_compute; reflexivity).
  destruct (fault_classification _ m m1 BleakDBusError Hraise)
    as (m2 & Hrun & Hbus & _).
  exists m2. split; [exact Hrun |].
  destruct (Hbus eq_refl) as [Hdisc Htr].
  split; [exact Hdisc | exact Htr].
Defined.

(** One invocation of the decorated function that raises a fault outside the
    transport classes is the only one. *)
Lemma retry_not_retryable (attempts : nat) (func : M unit) (m m' : machine) (e : exn) :
  func m = (Raise e, m') ->
  retryable e = false ->
  retry_bluetooth_connection_error (S attempts) func m = (Raise e, m').
Proof.
  intros Hrun Hno.
  destruct attempts as [| attempts]; cbn; [exact Hrun |].
  unfold try_except. rewrite Hrun, Hno. reflexivity.
Qed.





(** * The device facade *)

(** ** Coroutines that do not touch what the facade shows *)

Create HintDb quiet discriminated.

Lemma quiet_ret (A : Type) (a : A) : quiet (ret a).
Proof. intros m. reflexivity. Qed.

Lemma quiet_raise (A : Type) (e : exn) : quiet (@raise A e).
Proof. intros m. reflexivity. Qed.

Lemma quiet_get : quiet get.
Proof. intros m. reflexivity. Qed.

Lemma quiet_bind (A B : Type) (c : M A) (k : A -> M B) :
  quiet c -> (forall a, quiet (k a)) -> quiet (bind c k).
Proof.
  intros Hc Hk m. unfold bind.
  specialize (Hc m). destruct (c m) as [[a | e] m1]; cbn in *.
  - rewrite <- Hc. apply Hk.
  - exact Hc.
Qed.

Lemma quiet_try_except (A : Type) (c : M A) (handler : exn -> M A) :
  quiet c -> (forall e, quiet (handler e)) -> quiet (try_except c handler).
Proof.
  intros Hc Hh m. unfold try_except.
  specialize (Hc m). destruct (c m) as [[a | e] m1]; cbn in *.
  - exact Hc.
  - rewrite <- Hc. apply Hh.
Qed.

Lemma facade_view_log_event (ev : event) (m : machine) :
  notifications [ev] = [] ->
  facade_view (log_event ev m) = facade_view m.
Proof.
  intros Hev. unfold facade_view. cbn.
  rewrite notifications_app, Hev, app_nil_r. reflexivity.
Qed.

Lemma quiet_emit (ev : event) : notifications [ev] = [] -> quiet (emit ev).
Proof. intros Hev m. apply facade_view_log_event, Hev. Qed.

Lemma quiet_modify (f : machine -> machine) :
  (forall m, facade_view (f m) = facade_view m) -> quiet (modify f).
Proof. intros Hf m. apply Hf. Qed.

Lemma quiet_async_with (A : Type) (l : lock) (body : M A) :
  quiet body -> quiet (async_with l body).
Proof.
  intros Hb m. unfold async_with.
  specialize (Hb (log_event (EvAcquire l) m)).
  destruct (body (log_event (EvAcquire l) m)) as [r m1]; cbn in *.
  rewrite facade_view_log_event by reflexivity.
  rewrite Hb. apply facade_view_log_event. reflexivity.
Qed.

Lemma quiet_if (A : Type) (b : bool) (c1 c2 : M A) :
  quiet c1 -> quiet c2 -> quiet (if b then c1 else c2).
Proof. destruct b; auto. Qed.

#[local] Hint Resolve quiet_ret quiet_raise quiet_get quiet_bind
  quiet_try_except quiet_emit quiet_modify quiet_async_with quiet_if : quiet.

Lemma quiet_establish_connection : quiet establish_connection.
Proof.
  intros m. unfold establish_connection.
  destruct (establish_connection_outcome (env m) (connect_calls m))
    as [[cached fetched] | e]; cbn;
    exact (facade_view_log_event EvEstablishConnection
             (count_connect_call m) eq_refl).
Qed.

Lemma quiet_write_gatt_char (char : characteristic) (command : list Z) :
  quiet (write_gatt_char char command).
Proof.
  intros m. unfold write_gatt_char.
  destruct (write_gatt_char_outcome (env m) (write_calls m)) as [| e up];
    cbn; [| destruct (_client m)];
    exact (facade_view_log_event (EvWrite char command)
             (count_write_call m) eq_refl).
Qed.

Lemma quiet_reset_disconnect_timer : quiet _reset_disconnect_timer.
Proof.
  intros m.
  destruct (_reset_disconnect_timer_spec m) as (m' & Hrun & H).
  rewrite Hrun. cbn. tauto.
Qed.

Lemma quiet_execute_disconnect : quiet _execute_disconnect.
Proof.
  intros m.
  destruct (_execute_disconnect_spec m) as (m' & Hrun & H).
  rewrite Hrun. cbn. tauto.
Qed.

#[local] Hint Resolve quiet_establish_connection quiet_write_gatt_char
  quiet_reset_disconnect_timer quiet_execute_disconnect : quiet.

Lemma quiet_resolve_characteristics (found : option characteristic) :
  quiet (_resolve_characteristics found).
Proof.
  unfold _resolve_characteristics.
  destruct found; auto 6 with quiet.
Qed.

#[local] Hint Resolve quiet_resolve_characteristics : quiet.

Lemma quiet_ensure_connected : quiet _ensure_connected.
Proof.
  unfold _ensure_connected, client_get_services.
  repeat first
    [ apply quiet_reset_disconnect_timer
    | apply quiet_resolve_characteristics
    | apply quiet_establish_connection
    | apply quiet_bind; [| intros ?]
    | apply quiet_async_with
    | apply quiet_if
    | apply quiet_emit; reflexivity
    | apply quiet_modify; intros ?; reflexivity
    | solve [auto with quiet] ].
Qed.

Lemma quiet_write_commands (char : characteristic) (commands : list (list Z)) :
  quiet (write_commands char commands).
Proof.
  induction commands as [| command rest IH]; cbn; auto with quiet.
Qed.

#[local] Hint Resolve quiet_ensure_connected quiet_write_commands : quiet.

Lemma quiet_send_command_locked_body (commands : list (list Z)) :
  quiet (_send_command_locked_body commands).
Proof.
  unfold _send_command_locked_body, _execute_command_locked, sleep.
  apply quiet_try_except.
  - apply quiet_bind; [auto with quiet |]. intros m.
    destruct (_client m); [destruct (_write_char m) |]; auto with quiet.
  - intros e. destruct (is_BleakDBusError e); [| destruct (is_BleakError e)];
      repeat first
        [ apply quiet_bind; [| intros ?]
        | apply quiet_emit; reflexivity
        | solve [auto with quiet] ].
Qed.

Lemma quiet_retry (attempts : nat) (func : M unit) :
  quiet func -> quiet (retry_bluetooth_connection_error attempts func).
Proof.
  intros Hf.
  induction attempts as [| [| attempts] IH]; cbn; [auto with quiet | exact Hf |].
  apply quiet_try_except; [exact Hf |].
  intros e. destruct (retryable e); [exact IH | auto with quiet].
Qed.

Lemma quiet_send_command (commands : list Z + list (list Z)) :
  quiet (_send_command commands).
Proof.
  unfold _send_command, _send_command_while_connected, _send_command_locked.
  apply quiet_bind; [auto with quiet |]. intros _.
  apply quiet_async_with, quiet_try_except; [| auto with quiet].
  apply quiet_retry, quiet_send_command_locked_body.
Qed.

(** What every public command does once its frames are built: send, and
    only after a send that returned, replace the state and run the update
    callback. *)
Lemma commit_after_send
    (commands : list Z + list (list Z))
    (replace : FindnLedState -> FindnLedState) (m : machine) :
  match _send_command commands m with
  | (Raise e, m1) =>
      (_send_command commands ;;
       modify (fun m => set_state (replace (_state m)) m) ;;
       update_callback) m = (Raise e, m1) /\
      _state m1 = _state m /\
      notifications (trace m1) = notifications (trace m)
  | (Return _, m1) =>
      exists m2,
        (_send_command commands ;;
         modify (fun m => set_state (replace (_state m)) m) ;;
         update_callback) m = (Return tt, m2) /\
        _state m2 = replace (_state m) /\
        notifications (trace m2) =
          notifications (trace m) ++
          match _update_callback m with
          | Some cb => [(cb, replace (_state m))]
          | None => []
          end
  end.
Proof.
  pose proof (quiet_send_command commands m) as Hquiet.
  destruct (_send_command commands m) as [[[] | e] m1] eqn:Hsend;
    cbn in Hquiet; injection Hquiet as Hs Hu Hn.
  - unfold bind at 1. rewrite Hsend.
    unfold bind, modify, update_callback, get, emit, modify. cbn.
    rewrite Hu.
    destruct (_update_callback m) as [cb |]; cbn;
      eexists; (split; [reflexivity |]); cbn;
      rewrite ?notifications_app, ?app_nil_r, Hs, Hn; split; reflexivity.
  - unfold bind at 1. rewrite Hsend. repeat split; assumption.
Qed.

(** C1: for each of the five public commands, once its frames are built,
    when [_send_command] raises, the command raises the same fault, the
    logical state is what it was before the command and the update callback
    has not been invoked; when [_send_command] returns, the state is
    replaced by the command's new value and the registered callback is
    invoked exactly once, seeing that new state; with no callback
    registered nothing is invoked.  (A command whose frames cannot be built
    raises with the machine untouched.) *)
Theorem command_commits_only_after_send (c : command) (m : machine) :
  match frames_of c with
  | Raise e => run_command c m = (Raise e, m)
  | Return commands =>
      match _send_command commands m with
      | (Raise e, m1) =>
          run_command c m = (Raise e, m1) /\
          _state m1 = _state m /\
          notifications (trace m1) = notifications (trace m)
      | (Return _, m1) =>
          exists m2,
            run_command c m = (Return tt, m2) /\
            _state m2 = committed c (_state m) /\
            notifications (trace m2) =
              notifications (trace m) ++
              match _update_callback m with
              | Some cb => [(cb, committed c (_state m))]
              | None => []
              end
      end
  end.
Proof.
  destruct c as [| | brightness | hs | effect]; cbn [frames_of run_command committed].
  - exact (commit_after_send _ (fun s => replace_power s true) m).
  - exact (commit_after_send _ (fun s => replace_power s false) m).
  - unfold set_brightness.
    destruct (FindnLedBLEProtocol.construct_set_brightness_cmd brightness)
      as [frame | e]; [| reflexivity].
    exact (commit_after_send _ (fun s => replace_brightness s brightness) m).
  - unfold set_hs_color.
    destruct (FindnLedBLEProtocol.construct_set_hs_color_cmd hs)
      as [frame | e]; [| reflexivity].
    exact (commit_after_send _ (fun s => replace_hs s hs) m).
  - unfold set_effect.
    destruct (FindnLedBLEProtocol.construct_set_effect_cmd effect)
      as [frames | e]; [| reflexivity].
    exact (commit_after_send _ (fun s => replace_effect s effect) m).
Qed.

(** * The retry policy as the code applies it *)

(** C2: a first write that raises a transport fault is not retried with a
    reconnect.  On a fresh device whose first write raises [BleakError] and
    whose later writes would all succeed, [turn_on()] connects once and writes
    once; the fault handler disconnects, the decorator calls
    [_send_command_locked] again, and since [_ensure_connected] is not part
    of what the decorator wraps, the second call fails its assertion on
    [_client]: [turn_on()] raises [AssertionError] with no second connect
    and no second write, and the light stays off in the logical state. *)
Theorem turn_on_after_one_transport_fault :
  let m' := snd (turn_on (FindnLedDevice (failing_once BleakError))) in
  fst (turn_on (FindnLedDevice (failing_once BleakError))) =
    Raise AssertionError /\
  connect_calls m' = 1%nat /\
  write_calls m' = 1%nat /\
  trace m' =
    [EvAcquire _connect_lock; EvEstablishConnection;
     EvCallLater DISCONNECT_DELAY; EvRelease _connect_lock;
     EvAcquire _operation_lock;
     EvWrite 7%nat [0xBC; 0x01; 0x01; 0x01; 0x55];
     EvAcquire _connect_lock; EvClientDisconnect true;
     EvRelease _connect_lock;
     EvRelease _operation_lock] /\
  _client m' = None /\
  power (_state m') = false.
Proof. vm_compute. repeat split. Qed.

(** C3: a write that always raises the transient bus fault is attempted
    once, not three times, and the fault that reaches the caller is not the
    bus fault.  On a fresh device whose every write raises [BleakDBusError],
    [turn_on()] writes once, backs off, disconnects, and the second call
    made by the decorator fails its assertion on [_client]: the caller gets
    [AssertionError].  (With the write characteristic missing, there is one
    attempt and [CharacteristicMissingError] reaches the caller, as
    claimed.) *)
Theorem turn_on_with_persistent_bus_fault :
  let m' := snd (turn_on (FindnLedDevice (always_failing BleakDBusError))) in
  fst (turn_on (FindnLedDevice (always_failing BleakDBusError))) =
    Raise AssertionError /\
  write_calls m' = 1%nat /\
  writes (trace m') = [(7%nat, [0xBC; 0x01; 0x01; 0x01; 0x55])] /\
  trace m' =
    [EvAcquire _connect_lock; EvEstablishConnection;
     EvCallLater DISCONNECT_DELAY; EvRelease _connect_lock;
     EvAcquire _operation_lock;
     EvWrite 7%nat [0xBC; 0x01; 0x01; 0x01; 0x55];
     EvSleep BLEAK_BACKOFF_TIME;
     EvAcquire _connect_lock; EvClientDisconnect true;
     EvRelease _connect_lock;
     EvRelease _operation_lock] /\
  (let m'' := snd (turn_on (FindnLedDevice no_characteristic)) in
   fst (turn_on (FindnLedDevice no_characteristic)) =
     Raise CharacteristicMissingError /\
   write_calls m'' = 0%nat /\
   connect_calls m'' = 1%nat).
Proof. vm_compute. repeat split. Qed.

(** * Further properties of the encoder *)

Lemma bytes_returns (l frame : list Z) :
  bytes l = Return frame -> frame = l /\ forallb byte_ok l = true.
Proof.
  unfold bytes. destruct (forallb byte_ok l); [| discriminate].
  intros H. injection H as <-. split; reflexivity.
Qed.

Lemma bytes_negative (l : list Z) (b : Z) :
  In b l -> b < 0 -> bytes l = Raise ValueError.
Proof.
  intros Hin Hb. unfold bytes.
  destruct (forallb byte_ok l) eqn:E; [| reflexivity].
  rewrite forallb_forall in E. specialize (E b Hin).
  unfold byte_ok in E. lia.
Qed.

(** The high byte of a value outside sixteen bits is not a byte. *)
Lemma hi_out_of_range (v : Z) :
  ~ 0 <= v <= 65535 -> v / 256 < 0 \/ 255 < v / 256.
Proof.
  intros H.
  destruct (Z_lt_le_dec v 0) as [Hneg | Hpos].
  - left. apply Z.div_lt_upper_bound; lia.
  - right. assert (256 <= v / 256) by (apply Z.div_le_lower_bound; lia). lia.
Qed.

Lemma bytes_hi_out_of_range (l : list Z) (v : Z) :
  In (v / 256) l -> ~ 0 <= v <= 65535 -> bytes l = Raise ValueError.
Proof.
  intros Hin Hv.
  destruct (hi_out_of_range v Hv) as [Hneg | Hbig].
  - exact (bytes_negative l _ Hin Hneg).
  - exact (bytes_out_of_range l _ Hin Hbig).
Qed.



(** What [construct_set_effect_cmd] returns when it returns. *)
Lemma construct_set_effect_cmd_returns (effect : Z) (frames : list (list Z)) :
  FindnLedBLEProtocol.construct_set_effect_cmd effect = Return frames ->
  Z.abs effect <= 65535 /\
  frames =
    [[0xBC; 0x06; 0x02; Z.abs effect / 256; Z.abs effect mod 256; 0x55];
     [0xBC; 0x07; 0x01; (if 0 <? effect then 1 else 0); 0x55]].
Proof.
  intros Hret.
  destruct (Z_le_dec (Z.abs effect) 65535) as [Hin | Hout].
  - split; [exact Hin |].
    destruct (hi_lo_in_range (Z.abs effect) ltac:(lia)) as [Hhi Hlo].
    unfold FindnLedBLEProtocol.construct_set_effect_cmd in Hret.
    rewrite bytes_in_range in Hret by (repeat constructor; lia).
    destruct (0 <? effect); cbn in Hret; injection Hret as <-; reflexivity.
  - exfalso.
    unfold FindnLedBLEProtocol.construct_set_effect_cmd in Hret.
    rewrite (bytes_hi_out_of_range _ (Z.abs effect)) in Hret;
      [discriminate | cbn; tauto | lia].
Qed.

(** The two effect frames determine the effect: [construct_set_effect_cmd]
    returns the same frames for two integers only when they are equal, so the
    magnitude and direction on the wire lose nothing of the signed effect
    number. *)
Theorem construct_set_effect_cmd_injective
    (effect1 effect2 : Z) (frames : list (list Z)) :
  FindnLedBLEProtocol.construct_set_effect_cmd effect1 = Return frames ->
  FindnLedBLEProtocol.construct_set_effect_cmd effect2 = Return frames ->
  effect1 = effect2.
Proof.
  intros H1 H2.
  destruct (construct_set_effect_cmd_returns _ _ H1) as [Hm1 Hf1].
  destruct (construct_set_effect_cmd_returns _ _ H2) as [Hm2 Hf2].
  rewrite Hf1 in Hf2. injection Hf2 as Hhi Hlo Hdir.
  assert (Habs : Z.abs effect1 = Z.abs effect2).
  { rewrite (Z.div_mod (Z.abs effect1) 256), (Z.div_mod (Z.abs effect2) 256)
      by lia.
    rewrite Hhi, Hlo. reflexivity. }
  destruct (Z.ltb_spec 0 effect1), (Z.ltb_spec 0 effect2);
    try discriminate; lia.
Qed.

Lemma construct_set_effect_cmd_injective_witness :
  FindnLedBLEProtocol.construct_set_effect_cmd (-3) =
    Return [[0xBC; 0x06; 0x02; 0x00; 0x03; 0x55];
            [0xBC; 0x07; 0x01; 0x00; 0x55]] /\
  (-3) = (-3).
Proof.
  split; [reflexivity |].
  exact (construct_set_effect_cmd_injective (-3) (-3) _ eq_refl eq_refl).
Defined.

(** Every frame the encoder hands to the dispatcher, for any of the five
    commands and any argument for which frame construction returns, is a
    frame of the protocol: it starts with [0xBC], its third byte is the
    length of its payload (the frame's length less the header, opcode,
    length and trailer bytes), it ends with [0x55], and all its elements are
    bytes. *)
Theorem encoder_frames_well_formed
    (c : command) (commands : list Z + list (list Z)) :
  frames_of c = Return commands ->
  forallb well_formed_frame (frame_list commands) = true.
Proof.
  destruct c as [| | brightness | hs | effect]; cbn [frames_of].
  - intros H. injection H as <-. reflexivity.
  - intros H. injection H as <-. reflexivity.
  - destruct (FindnLedBLEProtocol.construct_set_brightness_cmd brightness)
      as [frame |] eqn:Hcmd; [| discriminate].
    intros H. injection H as <-.
    apply bytes_returns in Hcmd. destruct Hcmd as [-> Hbytes].
    cbn [frame_list forallb]. unfold well_formed_frame.
    rewrite Hbytes. reflexivity.
  - destruct (FindnLedBLEProtocol.construct_set_hs_color_cmd hs)
      as [frame |] eqn:Hcmd; [| discriminate].
    intros H. injection H as <-.
    apply bytes_returns in Hcmd. destruct Hcmd as [-> Hbytes].
    cbn [frame_list forallb]. unfold well_formed_frame.
    rewrite Hbytes. reflexivity.
  - destruct (FindnLedBLEProtocol.construct_set_effect_cmd effect)
      as [frames |] eqn:Hcmd; [| discriminate].
    intros H. injection H as <-.
    destruct (construct_set_effect_cmd_returns _ _ Hcmd) as [Hmag ->].
    destruct (hi_lo_in_range (Z.abs effect) ltac:(lia)) as [Hhi Hlo].
    cbn [frame_list forallb]. unfold well_formed_frame.
    cbn [forallb]. 
    replace (byte_ok (Z.abs effect / 256)) with true
      by (unfold byte_ok; lia).
    replace (byte_ok (Z.abs effect mod 256)) with true
      by (unfold byte_ok; lia).
    destruct (0 <? effect); reflexivity.
Qed.

Lemma encoder_frames_well_formed_witness :
  forallb well_formed_frame
    [[0xBC; 0x06; 0x02; 0x00; 0x03; 0x55]; [0xBC; 0x07; 0x01; 0x00; 0x55]] =
  true.
Proof.
  exact (encoder_frames_well_formed (SetEffect (-3)) _ eq_refl).
Defined.

(** * Further properties of the dispatcher *)

Lemma writes_app (tr1 tr2 : list event) :
  writes (tr1 ++ tr2) = writes tr1 ++ writes tr2.
Proof.
  induction tr1 as [| ev tr1 IH]; [reflexivity |].
  destruct ev; cbn; rewrite ?IH; reflexivity.
Qed.

Lemma writes_map_EvWrite (char : characteristic) (commands : list (list Z)) :
  writes (map (EvWrite char) commands) = map (pair char) commands.
Proof.
  induction commands as [| command rest IH]; [reflexivity |].
  cbn. rewrite IH. reflexivity.
Qed.

Lemma writes_succeed_tail (m m1 : machine) (n : nat) :
  env m1 = env m ->
  write_calls m1 = S (write_calls m) ->
  writes_succeed m (S n) ->
  writes_succeed m1 n.
Proof.
  intros Henv Hcalls Hok i Hi. rewrite Henv, Hcalls.
  replace (S (write_calls m) + i)%nat with (write_calls m + S i)%nat by lia.
  apply Hok. lia.
Qed.

Lemma writes_succeed_same (m m1 : machine) (n : nat) :
  env m1 = env m ->
  write_calls m1 = write_calls m ->
  writes_succeed m n ->
  writes_succeed m1 n.
Proof.
  intros Henv Hcalls Hok i Hi. rewrite Henv, Hcalls. apply Hok, Hi.
Qed.

Lemma after_writes_cons
    (char : characteristic) (command : list Z) (rest : list (list Z))
    (m : machine) :
  after_writes char rest (log_event (EvWrite char command) (count_write_call m)) =
  after_writes char (command :: rest) m.
Proof.
  unfold after_writes. cbn. f_equal.
  - lia.
  - rewrite <- app_assoc. reflexivity.
Qed.

Lemma after_writes_nil (char : characteristic) (m : machine) :
  after_writes char [] m = m.
Proof.
  destruct m. unfold after_writes. cbn. f_equal.
  - lia.
  - apply app_nil_r.
Qed.

(** The loop of [_execute_command_locked] when the transport takes every
    frame. *)
Lemma write_commands_all_ok
    (char : characteristic) (commands : list (list Z)) (m : machine) :
  writes_succeed m (length commands) ->
  write_commands char commands m = (Return tt, after_writes char commands m).
Proof.
  revert m. induction commands as [| command rest IH]; intros m Hok.
  - cbn. rewrite after_writes_nil. reflexivity.
  - cbn [write_commands]. unfold bind, write_gatt_char.
    pose proof (Hok 0%nat ltac:(cbn; lia)) as H0.
    rewrite Nat.add_0_r in H0. rewrite H0.
    rewrite IH; [rewrite after_writes_cons; reflexivity |].
    apply (writes_succeed_tail m); [reflexivity | reflexivity | exact Hok].
Qed.

(** The loop of [_execute_command_locked]: the frames are written in the
    order given, one transport call each, up to and including the first
    write that raises; the frames after that one are not written, and the
    fault raised is the transport's.  When the loop returns, every frame
    was written. *)
Theorem write_commands_in_order
    (char : characteristic) (commands : list (list Z)) (m : machine) :
  exists n,
    (n <= length commands)%nat /\
    trace (snd (write_commands char commands m)) =
      trace m ++ map (EvWrite char) (firstn n commands) /\
    write_calls (snd (write_commands char commands m)) =
      (write_calls m + n)%nat /\
    (forall i, (i + 1 < n)%nat ->
       write_gatt_char_outcome (env m) (write_calls m + i) = WriteOk) /\
    match fst (write_commands char commands m) with
    | Return _ =>
        n = length commands /\
        snd (write_commands char commands m) = after_writes char commands m /\
        writes_succeed m n
    | Raise e =>
        (0 < n)%nat /\
        exists link_up,
          write_gatt_char_outcome (env m) (write_calls m + (n - 1)) =
            WriteRaises e link_up
    end.
Proof.
  revert m. induction commands as [| command rest IH]; intros m.
  - exists 0%nat. cbn. rewrite app_nil_r, Nat.add_0_r.
    repeat split; try lia.
    + rewrite after_writes_nil. reflexivity.
    + intros i Hi. lia.
  - cbn [write_commands]. unfold bind.
    destruct (write_gatt_char_outcome (env m) (write_calls m))
      as [| e link_up] eqn:Hout.
    + assert (Hw : write_gatt_char char command m =
                   (Return tt,
                    log_event (EvWrite char command) (count_write_call m)))
        by (unfold write_gatt_char; rewrite Hout; reflexivity).
      rewrite Hw.
      set (m1 := log_event (EvWrite char command) (count_write_call m)).
      destruct (IH m1) as (n & Hn & Htr & Hcalls & Hpre & Hres).
      exists (S n). split; [cbn; lia |]. split; [| split; [| split]].
      * rewrite Htr. subst m1. cbn. rewrite <- app_assoc. reflexivity.
      * rewrite Hcalls. subst m1. cbn. lia.
      * intros i Hi. destruct i as [| i].
        -- rewrite Nat.add_0_r. exact Hout.
        -- specialize (Hpre i ltac:(lia)). subst m1. cbn in Hpre.
           replace (write_calls m + S i)%nat with (S (write_calls m + i))
             by lia.
           exact Hpre.
      * destruct (fst (write_commands char rest m1)) as [[] | e].
        -- destruct Hres as (Hlen & Hm & Hok).
           split; [cbn; lia |]. split.
           ++ rewrite Hm. apply after_writes_cons.
           ++ intros i Hi. destruct i as [| i].
              ** rewrite Nat.add_0_r. exact Hout.
              ** specialize (Hok i ltac:(lia)). subst m1. cbn in Hok.
                 replace (write_calls m + S i)%nat
                   with (S (write_calls m + i)) by lia.
                 exact Hok.
        -- destruct Hres as (Hpos & link_up & Hfail).
           split; [lia |]. exists link_up.
           subst m1. cbn in Hfail.
           replace (write_calls m + (S n - 1))%nat
             with (S (write_calls m + (n - 1))) by lia.
           exact Hfail.
    + assert (Hw : exists m1,
                write_gatt_char char command m = (Raise e, m1) /\
                trace m1 = trace m ++ [EvWrite char command] /\
                write_calls m1 = S (write_calls m)).
      { unfold write_gatt_char. rewrite Hout.
        eexists. split; [reflexivity |].
        cbn. destruct (_client m); cbn; split; reflexivity. }
      destruct Hw as (m1 & Hw & Htr & Hcalls). rewrite Hw.
      exists 1%nat. cbn [fst snd firstn map]. 
      split; [cbn; lia |]. split; [exact Htr |]. split; [lia |].
      split; [intros i Hi; lia |]. split; [lia |].
      exists link_up. rewrite Nat.add_0_r. exact Hout.
Qed.

Lemma retry_returns (attempts : nat) (func : M unit) (m m' : machine) :
  func m = (Return tt, m') ->
  retry_bluetooth_connection_error (S attempts) func m = (Return tt, m').
Proof.
  intros Hrun.
  destruct attempts as [| attempts]; cbn; [exact Hrun |].
  unfold try_except. rewrite Hrun. reflexivity.
Qed.

(** [_execute_command_locked] with no client: the assertion fails before
    anything is done. *)
Lemma _execute_command_locked_no_client (commands : list (list Z)) (m : machine) :
  _client m = None ->
  _execute_command_locked commands m = (Raise AssertionError, m).
Proof.
  intros Hc. unfold _execute_command_locked, bind, get. rewrite Hc. reflexivity.
Qed.

Lemma _send_command_locked_body_no_client
    (commands : list (list Z)) (m : machine) :
  _client m = None ->
  _send_command_locked_body commands m = (Raise AssertionError, m).
Proof.
  intros Hc. unfold _send_command_locked_body, try_except.
  rewrite (_execute_command_locked_no_client commands m Hc). reflexivity.
Qed.

(** What [_send_command_locked]'s body leaves behind when it raises a
    transport fault. *)
Lemma _send_command_locked_body_raises
    (commands : list (list Z)) (m m1 : machine) (e : exn) :
  _send_command_locked_body commands m = (Raise e, m1) ->
  is_BleakError e = true ->
  disconnected m1.
Proof.
  intros Hbody Hbleak.
  unfold _send_command_locked_body, try_except in Hbody.
  destruct (_execute_command_locked commands m) as [[[] | e0] m0];
    [discriminate |].
  destruct (is_BleakDBusError e0) eqn:Hbus;
    [| destruct (is_BleakError e0) eqn:Hgen].
  - cbv [bind sleep emit modify] in Hbody.
    destruct (_execute_disconnect_spec
                (log_event (EvSleep BLEAK_BACKOFF_TIME) m0))
      as (m2 & Hrun & Hdisc & _).
    rewrite Hrun in Hbody. cbv [raise] in Hbody.
    injection Hbody as _ <-. exact Hdisc.
  - cbv [bind] in Hbody.
    destruct (_execute_disconnect_spec m0) as (m2 & Hrun & Hdisc & _).
    rewrite Hrun in Hbody. cbv [raise] in Hbody.
    injection Hbody as _ <-. exact Hdisc.
  - cbv [raise] in Hbody. injection Hbody as <- _. congruence.
Qed.

(** A second call of [_send_command_locked]'s body after a call that
    raised a transport fault: the first call left the device disconnected,
    without a client, and nothing in the body connects, so the second call
    fails the assertion on [_client] at once: it raises [AssertionError],
    writes nothing and leaves the device as it found it. *)
Theorem _send_command_locked_body_twice
    (commands again : list (list Z)) (m m1 : machine) (e : exn) :
  _send_command_locked_body commands m = (Raise e, m1) ->
  is_BleakError e = true ->
  _client m1 = None /\
  _write_char m1 = None /\
  _send_command_locked_body again m1 = (Raise AssertionError, m1).
Proof.
  intros Hbody Hbleak.
  destruct (_send_command_locked_body_raises commands m m1 e Hbody Hbleak)
    as (Hc & Hw & _).
  split; [exact Hc |]. split; [exact Hw |].
  apply _send_command_locked_body_no_client, Hc.
Qed.

Lemma _send_command_locked_body_twice_witness :
  exists m1,
    _send_command_locked_body [FindnLedBLEProtocol.turn_on_command]
      (connected_device (always_failing BleakError)) = (Raise BleakError, m1) /\
    _client m1 = None /\
    _send_command_locked_body [FindnLedBLEProtocol.turn_off_command] m1 =
      (Raise AssertionError, m1).
Proof.
  pose (m := connected_device (always_failing BleakError)).
  pose (m1 := snd (_send_command_locked_body
                     [FindnLedBLEProtocol.turn_on_command] m)).
  vm_compute in m1.
  assert (Hraise :
    _send_command_locked_body [FindnLedBLEProtocol.turn_on_command] m =
    (Raise BleakError, m1)) by (vm_compute; reflexivity).
  exists m1. split; [exact Hraise |].
  destruct (_send_command_locked_body_twice
              _ [FindnLedBLEProtocol.turn_off_command] m m1 BleakError
              Hraise eq_refl) as (Hc & _ & Hagain).
  split; [exact Hc | exact Hagain].
Defined.

(** The decorated [_send_command_locked]: whatever its body does, it is one
    call of the body, followed, when that call raised a transport fault, by
    one more call that fails the assertion on [_client].  So a transport
    fault of a write reaches the caller as [AssertionError], every other
    outcome as it is, and no frame is written a second time. *)
Lemma _send_command_locked_one_attempt
    (commands : list (list Z)) (m : machine) :
  _send_command_locked commands m =
  match _send_command_locked_body commands m with
  | (Return a, m1) => (Return a, m1)
  | (Raise e, m1) =>
      (Raise (if is_BleakError e then AssertionError else e), m1)
  end.
Proof.
  unfold _send_command_locked, DEFAULT_ATTEMPTS.
  cbn [retry_bluetooth_connection_error]. unfold try_except at 1.
  destruct (_send_command_locked_body commands m) as [[[] | e] m1] eqn:Hbody;
    [reflexivity |].
  unfold retryable. destruct (is_BleakError e) eqn:Hbleak; [| reflexivity].
  destruct (_send_command_locked_body_raises commands m m1 e Hbody Hbleak)
    as (Hc & _).
  unfold try_except at 1.
  rewrite (_send_command_locked_body_no_client commands m1 Hc). reflexivity.
Qed.

Lemma write_commands_returns
    (char : characteristic) (commands : list (list Z)) (m m' : machine) :
  write_commands char commands m = (Return tt, m') ->
  m' = after_writes char commands m /\
  writes_succeed m (length commands).
Proof.
  revert m. induction commands as [| command rest IH]; intros m Hret.
  - cbn in Hret. injection Hret as <-. split.
    + symmetry. apply after_writes_nil.
    + intros i Hi. cbn in Hi. lia.
  - cbn [write_commands] in Hret. unfold bind, write_gatt_char in Hret.
    destruct (write_gatt_char_outcome (env m) (write_calls m))
      as [| e link_up] eqn:Hout; [| discriminate].
    destruct (IH _ Hret) as [Hm Hok]. split.
    + rewrite Hm. apply after_writes_cons.
    + intros i Hi. destruct i as [| i].
      * rewrite Nat.add_0_r. exact Hout.
      * specialize (Hok i ltac:(cbn in Hi; lia)). cbn in Hok.
        replace (write_calls m + S i)%nat with (S (write_calls m + i)) by lia.
        exact Hok.
Qed.

Lemma _execute_command_locked_returns
    (commands : list (list Z)) (m m' : machine) :
  _execute_command_locked commands m = (Return tt, m') ->
  exists c char,
    _client m = Some c /\
    _write_char m = Some char /\
    m' = after_writes char commands m /\
    writes_succeed m (length commands).
Proof.
  unfold _execute_command_locked, bind, get. intros Hret.
  destruct (_client m) as [c |]; [| discriminate].
  destruct (_write_char m) as [char |]; [| discriminate].
  exists c, char. split; [reflexivity |]. split; [reflexivity |].
  apply write_commands_returns, Hret.
Qed.

Lemma _execute_command_locked_all_ok
    (commands : list (list Z)) (m : machine) (c : client)
    (char : characteristic) :
  _client m = Some c ->
  _write_char m = Some char ->
  writes_succeed m (length commands) ->
  _execute_command_locked commands m =
    (Return tt, after_writes char commands m).
Proof.
  intros Hc Hw Hok. unfold _execute_command_locked, bind, get.
  rewrite Hc, Hw. apply write_commands_all_ok, Hok.
Qed.

(** The handlers of [_send_command_locked] all raise again: the body returns
    only when [_execute_command_locked] did. *)
Lemma _send_command_locked_body_returns
    (commands : list (list Z)) (m m' : machine) :
  _send_command_locked_body commands m = (Return tt, m') ->
  _execute_command_locked commands m = (Return tt, m').
Proof.
  unfold _send_command_locked_body, try_except. intros Hret.
  destruct (_execute_command_locked commands m) as [[[] | e0] m0];
    [exact Hret |].
  exfalso.
  destruct (is_BleakDBusError e0); [| destruct (is_BleakError e0)].
  - cbv [bind sleep emit modify] in Hret.
    destruct (_execute_disconnect_spec
                (log_event (EvSleep BLEAK_BACKOFF_TIME) m0))
      as (m2 & Hrun & _).
    rewrite Hrun in Hret. discriminate.
  - cbv [bind] in Hret.
    destruct (_execute_disconnect_spec m0) as (m2 & Hrun & _).
    rewrite Hrun in Hret. discriminate.
  - discriminate.
Qed.

Lemma _send_command_while_connected_returns
    (commands : list (list Z)) (m m' : machine) :
  _send_command_while_connected commands m = (Return tt, m') ->
  exists c char,
    _client m = Some c /\
    _write_char m = Some char /\
    writes_succeed m (length commands) /\
    m' = log_event (EvRelease _operation_lock)
           (after_writes char commands
              (log_event (EvAcquire _operation_lock) m)).
Proof.
  unfold _send_command_while_connected, async_with, try_except.
  rewrite _send_command_locked_one_attempt. intros Hret.
  destruct (_send_command_locked_body commands
              (log_event (EvAcquire _operation_lock) m))
    as [[[] | e] m3] eqn:Hbody; [| discriminate].
  injection Hret as <-.
  apply _send_command_locked_body_returns in Hbody.
  destruct (_execute_command_locked_returns _ _ _ Hbody)
    as (c & char & Hc & Hw & Hm & Hok).
  exists c, char. repeat split; try assumption.
  rewrite Hm. reflexivity.
Qed.

Lemma _send_command_while_connected_all_ok
    (commands : list (list Z)) (m : machine) (c : client)
    (char : characteristic) :
  _client m = Some c ->
  _write_char m = Some char ->
  writes_succeed m (length commands) ->
  _send_command_while_connected commands m =
    (Return tt,
     log_event (EvRelease _operation_lock)
       (after_writes char commands
          (log_event (EvAcquire _operation_lock) m))).
Proof.
  intros Hc Hw Hok.
  unfold _send_command_while_connected, async_with, try_except.
  rewrite _send_command_locked_one_attempt.
  unfold _send_command_locked_body, try_except.
  rewrite (_execute_command_locked_all_ok commands
             (log_event (EvAcquire _operation_lock) m) c char Hc Hw Hok).
  reflexivity.
Qed.

Lemma writes_timer_events (m : machine) : writes (timer_events m) = [].
Proof. unfold timer_events. destruct (_disconnect_timer m); reflexivity. Qed.

Lemma writes_refetch_events (before cached : option characteristic) :
  writes (refetch_events before cached) = [].
Proof. destruct before, cached; reflexivity. Qed.

(** What holds when [_ensure_connected] returns, by either path. *)
Lemma _ensure_connected_returns (m m1 : machine) :
  _ensure_connected m = (Return tt, m1) ->
  client_is_connected m1 = true /\
  _disconnect_timer m1 = Some DISCONNECT_DELAY /\
  _expected_disconnect m1 = false /\
  writes (trace m1) = writes (trace m) /\
  write_calls m1 = write_calls m /\
  env m1 = env m /\
  facade_view m1 = facade_view m.
Proof.
  intros Hret.
  destruct (client_is_connected m) eqn:Hconn.
  - rewrite (_ensure_connected_when_connected m Hconn) in Hret.
    destruct (_reset_disconnect_timer_spec m)
      as (m' & Hrun & Htm & Hex & Htr & Hcl & _ & Hview & Henv & _ & Hwr).
    rewrite Hrun in Hret. injection Hret as <-.
    repeat split; try assumption.
    + unfold client_is_connected in *. rewrite Hcl. exact Hconn.
    + rewrite Htr, writes_app, writes_timer_events. apply app_nil_r.
  - destruct (establish_connection_outcome (env m) (connect_calls m))
      as [[cached fetched] | e] eqn:Hout.
    + destruct (_ensure_connected_connects m cached fetched Hconn Hout)
        as (m' & Hrun & Hcl & _ & Htm & Hex & Htr & Hview & Henv & _ & Hwr).
      rewrite Hrun in Hret. injection Hret as <-.
      repeat split; try assumption.
      * unfold client_is_connected. rewrite Hcl. reflexivity.
      * rewrite Htr. rewrite writes_app. cbn.
        rewrite !writes_app, writes_refetch_events, writes_timer_events.
        cbn. apply app_nil_r.
    + destruct (_ensure_connected_unreachable m e Hconn Hout)
        as (m' & Hrun & _).
      rewrite Hrun in Hret. discriminate.
Qed.

(** A send that returns: the device is connected with the idle timer armed,
    the write characteristic is resolved, and on the way every frame was
    written to it, once each and in the order given, and nothing else was
    written. *)
Theorem _send_command_returns
    (commands : list Z + list (list Z)) (m m' : machine) :
  _send_command commands m = (Return tt, m') ->
  exists char,
    _write_char m' = Some char /\
    client_is_connected m' = true /\
    _disconnect_timer m' = Some DISCONNECT_DELAY /\
    writes (trace m') =
      writes (trace m) ++ map (pair char) (frame_list commands) /\
    write_calls m' = (write_calls m + length (frame_list commands))%nat.
Proof.
  unfold _send_command. unfold bind at 1. intros Hret.
  destruct (_ensure_connected m) as [[[] | e] m1] eqn:Hens; [| discriminate].
  destruct (_ensure_connected_returns m m1 Hens)
    as (Hconn & Htm & _ & Hwr & Hcalls & _).
  fold (frame_list commands) in Hret.
  destruct (_send_command_while_connected_returns _ _ _ Hret)
    as (c & char & Hc & Hw & Hok & ->).
  exists char.
  destruct m1 as [st wc dt cl ed cb t cc wcalls tr].
  unfold client_is_connected in *. cbn in *.
  repeat split; try assumption.
  - rewrite !writes_app, writes_map_EvWrite, Hwr. cbn.
    rewrite !app_nil_r. reflexivity.
  - lia.
Qed.

Lemma _send_command_returns_witness :
  exists char,
    writes (trace (snd (_send_command
                          (inl FindnLedBLEProtocol.turn_on_command)
                          (FindnLedDevice always_ok)))) =
    [(char, FindnLedBLEProtocol.turn_on_command)].
Proof.
  pose (m' := snd (_send_command (inl FindnLedBLEProtocol.turn_on_command)
                     (FindnLedDevice always_ok))).
  vm_compute in m'.
  assert (Hret :
    _send_command (inl FindnLedBLEProtocol.turn_on_command)
      (FindnLedDevice always_ok) = (Return tt, m'))
    by (vm_compute; reflexivity).
  destruct (_send_command_returns _ _ _ Hret) as (char & _ & _ & _ & Hwr & _).
  exists char. exact Hwr.
Defined.

(** * Further properties of the facade *)

(** A command whose frames were built is the send, then the commit, then
    the notification. *)
Lemma run_command_unfold
    (c : command) (commands : list Z + list (list Z)) (m : machine) :
  frames_of c = Return commands ->
  run_command c m =
  (_send_command commands ;;
   modify (fun m => set_state (committed c (_state m)) m) ;;
   update_callback) m.
Proof.
  destruct c as [| | brightness | hs | effect];
    cbn [frames_of run_command committed].
  - intros H. injection H as <-. reflexivity.
  - intros H. injection H as <-. reflexivity.
  - unfold set_brightness.
    destruct (FindnLedBLEProtocol.construct_set_brightness_cmd brightness);
      [| discriminate].
    intros H. injection H as <-. reflexivity.
  - unfold set_hs_color.
    destruct (FindnLedBLEProtocol.construct_set_hs_color_cmd hs);
      [| discriminate].
    intros H. injection H as <-. reflexivity.
  - unfold set_effect.
    destruct (FindnLedBLEProtocol.construct_set_effect_cmd effect);
      [| discriminate].
    intros H. injection H as <-. reflexivity.
Qed.

Lemma run_command_after_send
    (c : command) (commands : list Z + list (list Z)) (m m1 : machine) :
  frames_of c = Return commands ->
  _send_command commands m = (Return tt, m1) ->
  run_command c m =
    (Return tt,
     snd (update_callback (set_state (committed c (_state m1)) m1))).
Proof.
  intros Hframes Hsend.
  rewrite (run_command_unfold c commands m Hframes).
  unfold bind at 1. rewrite Hsend.
  unfold bind, modify, update_callback, get, emit, modify. cbn.
  destruct (_update_callback m1); reflexivity.
Qed.

Lemma run_command_send_raises
    (c : command) (commands : list Z + list (list Z)) (m m1 : machine)
    (e : exn) :
  frames_of c = Return commands ->
  _send_command commands m = (Raise e, m1) ->
  run_command c m = (Raise e, m1).
Proof.
  intros Hframes Hsend.
  rewrite (run_command_unfold c commands m Hframes).
  unfold bind at 1. rewrite Hsend. reflexivity.
Qed.

(** A send on a connected device whose write characteristic is resolved,
    over a transport that takes the frames: the idle timer is reset, the
    operation lock is taken, the frames are written in order to that
    characteristic and the lock is released; there is no connect and no
    other transport call. *)
Theorem _send_command_on_connected_device
    (commands : list Z + list (list Z)) (m : machine) (char : characteristic) :
  client_is_connected m = true ->
  _write_char m = Some char ->
  writes_succeed m (length (frame_list commands)) ->
  exists m',
    _send_command commands m = (Return tt, m') /\
    trace m' =
      trace m ++ timer_events m
      ++ EvAcquire _operation_lock
         :: map (EvWrite char) (frame_list commands)
      ++ [EvRelease _operation_lock] /\
    connect_calls m' = connect_calls m /\
    write_calls m' = (write_calls m + length (frame_list commands))%nat /\
    _client m' = _client m /\
    _write_char m' = Some char /\
    _disconnect_timer m' = Some DISCONNECT_DELAY /\
    _expected_disconnect m' = false /\
    env m' = env m.
Proof.
  intros Hconn Hw Hok.
  unfold _send_command. unfold bind at 1.
  rewrite (_ensure_connected_when_connected m Hconn).
  destruct (_reset_disconnect_timer_spec m)
    as (m1 & Hrun & Htm & Hex & Htr & Hcl & Hwc & _ & Henv & Hcc & Hwr).
  rewrite Hrun. fold (frame_list commands).
  assert (Hc1 : exists c, _client m1 = Some c).
  { unfold client_is_connected in Hconn. rewrite Hcl.
    destruct (_client m) as [c |]; [exists c; reflexivity | discriminate]. }
  destruct Hc1 as [c Hc1].
  rewrite (_send_command_while_connected_all_ok (frame_list commands) m1 c char
             Hc1 (eq_trans Hwc Hw)
             (writes_succeed_same m m1 _ Henv Hwr Hok)).
  eexists. split; [reflexivity |].
  cbn. rewrite Htr, Hcc, Hwr, Hwc, Henv, <- !app_assoc.
  repeat split; assumption.
Qed.

Lemma _send_command_on_connected_device_witness :
  exists m',
    _send_command (inr [[0xBC; 0x06; 0x02; 0x00; 0x03; 0x55];
                        [0xBC; 0x07; 0x01; 0x00; 0x55]])
      (connected_device always_ok) = (Return tt, m') /\
    trace m' =
      trace (connected_device always_ok)
      ++ [EvTimerCancel; EvCallLater DISCONNECT_DELAY;
          EvAcquire _operation_lock;
          EvWrite 7%nat [0xBC; 0x06; 0x02; 0x00; 0x03; 0x55];
          EvWrite 7%nat [0xBC; 0x07; 0x01; 0x00; 0x55];
          EvRelease _operation_lock] /\
    connect_calls m' = 1%nat.
Proof.
  destruct (_send_command_on_connected_device
              (inr [[0xBC; 0x06; 0x02; 0x00; 0x03; 0x55];
                    [0xBC; 0x07; 0x01; 0x00; 0x55]])
              (connected_device always_ok) 7%nat eq_refl eq_refl
              (fun i _ => eq_refl))
    as (m' & Hrun & Htr & Hcc & _).
  exists m'. split; [exact Hrun |]. split; [exact Htr | exact Hcc].
Defined.

Lemma update_callback_fields (m : machine) :
  let m' := snd (update_callback m) in
  _state m' = _state m /\
  _write_char m' = _write_char m /\
  _client m' = _client m /\
  _update_callback m' = _update_callback m /\
  env m' = env m /\
  connect_calls m' = connect_calls m /\
  write_calls m' = write_calls m /\
  writes (trace m') = writes (trace m) /\
  notifications (trace m') =
    notifications (trace m)
    ++ match _update_callback m with
       | Some cb => [(cb, _state m)]
       | None => []
       end.
Proof.
  destruct m as [st wc dt cl ed cb t cc wcalls tr].
  unfold update_callback, bind, get, emit, modify. cbn.
  destruct cb as [cb |]; cbn;
    rewrite ?writes_app, ?notifications_app, ?app_nil_r; cbn;
    rewrite ?app_nil_r; repeat split; reflexivity.
Qed.

(** A command on a connected device whose write characteristic is resolved,
    over a transport that takes the command's frames. *)
Lemma run_command_on_connected_device
    (c : command) (commands : list Z + list (list Z)) (m : machine)
    (char : characteristic) :
  frames_of c = Return commands ->
  client_is_connected m = true ->
  _write_char m = Some char ->
  writes_succeed m (length (frame_list commands)) ->
  exists m',
    run_command c m = (Return tt, m') /\
    _state m' = committed c (_state m) /\
    writes (trace m') =
      writes (trace m) ++ map (pair char) (frame_list commands) /\
    notifications (trace m') =
      notifications (trace m)
      ++ match _update_callback m with
         | Some cb => [(cb, committed c (_state m))]
         | None => []
         end /\
    connect_calls m' = connect_calls m /\
    write_calls m' = (write_calls m + length (frame_list commands))%nat /\
    client_is_connected m' = true /\
    _write_char m' = Some char /\
    _update_callback m' = _update_callback m /\
    env m' = env m.
Proof.
  intros Hframes Hconn Hw Hok.
  assert (Hsend : exists m1,
    _send_command commands m = (Return tt, m1) /\
    writes (trace m1) =
      writes (trace m) ++ map (pair char) (frame_list commands) /\
    connect_calls m1 = connect_calls m /\
    write_calls m1 = (write_calls m + length (frame_list commands))%nat /\
    _client m1 = _client m /\
    _write_char m1 = Some char /\
    env m1 = env m).
  { unfold _send_command. unfold bind at 1.
    rewrite (_ensure_connected_when_connected m Hconn).
    destruct (_reset_disconnect_timer_spec m)
      as (m1 & Hrun & _ & _ & Htr & Hcl & Hwc & _ & Henv & Hcc & Hwr).
    rewrite Hrun. fold (frame_list commands).
    assert (Hc1 : exists cl, _client m1 = Some cl).
    { unfold client_is_connected in Hconn. rewrite Hcl.
      destruct (_client m) as [cl |]; [exists cl; reflexivity | discriminate]. }
    destruct Hc1 as [cl Hc1].
    rewrite (_send_command_while_connected_all_ok (frame_list commands) m1 cl
               char Hc1 (eq_trans Hwc Hw)
               (writes_succeed_same m m1 _ Henv Hwr Hok)).
    eexists. split; [reflexivity |].
    cbn. rewrite Htr, Hcc, Hwr, Hwc, Henv, Hcl.
    rewrite !writes_app, writes_timer_events, writes_map_EvWrite. cbn.
    rewrite !app_nil_r.
    repeat split; assumption. }
  destruct Hsend as (m1 & Hsend & Hwrs & Hcc & Hwr & Hcl & Hwc & Henv).
  pose proof (quiet_send_command commands m) as Hquiet.
  rewrite Hsend in Hquiet. cbn in Hquiet. injection Hquiet as Hst Hcb Hnot.
  rewrite (run_command_after_send c commands m m1 Hframes Hsend).
  set (m2 := set_state (committed c (_state m1)) m1).
  destruct (update_callback_fields m2)
    as (Hs' & Hw' & Hc' & Hu' & He' & Hcc' & Hwr' & Hwrs' & Hnot').
  exists (snd (update_callback m2)). split; [reflexivity |].
  unfold client_is_connected.
  rewrite Hs', Hwrs', Hnot', Hcc', Hwr', Hc', Hw', Hu', He'.
  subst m2. cbn [set_state _state _write_char _client _update_callback env
                 connect_calls write_calls trace].
  rewrite Hst, Hcb, Hnot, Hwrs, Hcc, Hwr, Hcl, Hwc, Henv.
  repeat split; try reflexivity. exact Hconn.
Qed.

Lemma writes_succeed_split (m m1 : machine) (n1 n2 : nat) :
  env m1 = env m ->
  write_calls m1 = (write_calls m + n1)%nat ->
  writes_succeed m (n1 + n2) ->
  writes_succeed m n1 /\ writes_succeed m1 n2.
Proof.
  intros Henv Hcalls Hok. split.
  - intros i Hi. apply Hok. lia.
  - intros i Hi. rewrite Henv, Hcalls, <- Nat.add_assoc. apply Hok. lia.
Qed.

(** Two commands in a row on a connected device whose write characteristic
    is resolved, over a transport that takes their frames: both return; the
    frames of the first and then those of the second were written, in
    order, to that characteristic, and nothing else; the second command
    found the device connected and made no connect; the state is the first
    command's value overlaid by the second's, and the registered callback
    ran once per command, each time on the state just committed. *)
Theorem commands_in_sequence
    (c1 c2 : command) (commands1 commands2 : list Z + list (list Z))
    (m : machine) (char : characteristic) :
  frames_of c1 = Return commands1 ->
  frames_of c2 = Return commands2 ->
  client_is_connected m = true ->
  _write_char m = Some char ->
  writes_succeed m
    (length (frame_list commands1) + length (frame_list commands2)) ->
  exists m',
    (run_command c1 ;; run_command c2) m = (Return tt, m') /\
    _state m' = committed c2 (committed c1 (_state m)) /\
    writes (trace m') =
      writes (trace m)
      ++ map (pair char) (frame_list commands1 ++ frame_list commands2) /\
    notifications (trace m') =
      notifications (trace m)
      ++ match _update_callback m with
         | Some cb =>
             [(cb, committed c1 (_state m));
              (cb, committed c2 (committed c1 (_state m)))]
         | None => []
         end /\
    connect_calls m' = connect_calls m /\
    client_is_connected m' = true.
Proof.
  intros Hf1 Hf2 Hconn Hw Hok.
  assert (Hok1 : writes_succeed m (length (frame_list commands1)))
    by (intros i Hi; apply Hok; lia).
  destruct (run_command_on_connected_device c1 commands1 m char
              Hf1 Hconn Hw Hok1)
    as (m1 & Hrun1 & Hst1 & Hwrs1 & Hnot1 & Hcc1 & Hwr1 & Hconn1 & Hw1
        & Hcb1 & Henv1).
  destruct (writes_succeed_split m m1 _ _ Henv1 Hwr1 Hok) as [_ Hok2].
  destruct (run_command_on_connected_device c2 commands2 m1 char
              Hf2 Hconn1 Hw1 Hok2)
    as (m2 & Hrun2 & Hst2 & Hwrs2 & Hnot2 & Hcc2 & _ & Hconn2 & _).
  exists m2. unfold bind. rewrite Hrun1, Hrun2.
  split; [reflexivity |].
  rewrite Hcb1, Hst1 in Hnot2. rewrite Hst1 in Hst2.
  rewrite Hst2, Hwrs2, Hwrs1, Hnot2, Hnot1, Hcc2, Hcc1.
  rewrite map_app, <- !app_assoc.
  repeat split; try reflexivity; try assumption.
  destruct (_update_callback m); reflexivity.
Qed.

Lemma commands_in_sequence_witness :
  exists m',
    (run_command TurnOn ;; run_command (SetEffect (-3)))
      (connected_device always_ok) = (Return tt, m') /\
    _state m' =
      {| power := true; hs := (0%Q, 0%Q); brightness := 1;
         effect := Some (-3) |} /\
    writes (trace m') =
      [(7%nat, [0xBC; 0x01; 0x01; 0x01; 0x55]);
       (7%nat, [0xBC; 0x06; 0x02; 0x00; 0x03; 0x55]);
       (7%nat, [0xBC; 0x07; 0x01; 0x00; 0x55])] /\
    connect_calls m' = 1%nat.
Proof.
  destruct (commands_in_sequence
              TurnOn (SetEffect (-3)) _ _ (connected_device always_ok) 7%nat
              eq_refl eq_refl eq_refl eq_refl (fun i _ => eq_refl))
    as (m' & Hrun & Hst & Hwrs & _ & Hcc & _).
  exists m'. split; [exact Hrun |].
  split; [exact Hst |]. split; [exact Hwrs | exact Hcc].
Defined.

(** * Further properties of the connection manager *)

(** [_ensure_connected] on a connected device resets the idle timer and
    does nothing else: no lock is taken, no transport call is made, the
    client and the write characteristic stay; a pending timer is cancelled
    before the new one is armed, and the expected-disconnect flag is
    cleared. *)
Theorem _ensure_connected_fast_path (m : machine) :
  client_is_connected m = true ->
  exists m',
    _ensure_connected m = (Return tt, m') /\
    trace m' =
      trace m
      ++ (match _disconnect_timer m with
          | Some _ => [EvTimerCancel]
          | None => []
          end)
      ++ [EvCallLater DISCONNECT_DELAY] /\
    _disconnect_timer m' = Some DISCONNECT_DELAY /\
    _expected_disconnect m' = false /\
    _client m' = _client m /\
    _write_char m' = _write_char m /\
    connect_calls m' = connect_calls m /\
    write_calls m' = write_calls m.
Proof.
  intros Hconn.
  rewrite (_ensure_connected_when_connected m Hconn).
  destruct (_reset_disconnect_timer_spec m)
    as (m' & Hrun & Htm & Hex & Htr & Hcl & Hwc & _ & _ & Hcc & Hwr).
  exists m'. repeat split; assumption.
Qed.

Lemma _ensure_connected_fast_path_witness :
  exists m',
    _ensure_connected (connected_device always_ok) = (Return tt, m') /\
    trace m' =
      trace (connected_device always_ok)
      ++ [EvTimerCancel; EvCallLater DISCONNECT_DELAY] /\
    connect_calls m' = 1%nat.
Proof.
  destruct (_ensure_connected_fast_path (connected_device always_ok) eq_refl)
    as (m' & Hrun & Htr & _ & _ & _ & _ & Hcc & _).
  exists m'. split; [exact Hrun |]. split; [exact Htr | exact Hcc].
Defined.

(** The machine [_ensure_connected] leaves when the connect raises. *)
Lemma _ensure_connected_connect_raises (m : machine) (e : exn) :
  client_is_connected m = false ->
  establish_connection_outcome (env m) (connect_calls m) = Raise e ->
  _ensure_connected m =
    (Raise e,
     log_event (EvRelease _connect_lock)
       (log_event EvEstablishConnection
          (count_connect_call (log_event (EvAcquire _connect_lock) m)))).
Proof.
  intros Hnot Hout. unfold _ensure_connected.
  destruct m as [st wc dt cl ed cb t cc wcalls tr].
  cbv [bind get async_with establish_connection].
  unfold client_is_connected in *. cbn in *.
  rewrite Hnot. cbn. rewrite Hnot. cbn. rewrite Hout. reflexivity.
Qed.

(** A command on a device that is not connected and cannot connect: the
    fault of the connect reaches the caller; the connect lock was taken and
    released, one connect was attempted, nothing was written, no timer
    was armed, and the logical state is what it was. *)
Theorem command_on_unreachable_device
    (c : command) (commands : list Z + list (list Z)) (m : machine) (e : exn) :
  frames_of c = Return commands ->
  client_is_connected m = false ->
  establish_connection_outcome (env m) (connect_calls m) = Raise e ->
  exists m',
    run_command c m = (Raise e, m') /\
    trace m' =
      trace m
      ++ [EvAcquire _connect_lock; EvEstablishConnection;
          EvRelease _connect_lock] /\
    connect_calls m' = S (connect_calls m) /\
    write_calls m' = write_calls m /\
    _state m' = _state m /\
    _client m' = _client m /\
    _disconnect_timer m' = _disconnect_timer m.
Proof.
  intros Hframes Hnot Hout.
  eexists. split.
  - apply (run_command_send_raises c commands m _ e Hframes).
    unfold _send_command. unfold bind at 1.
    rewrite (_ensure_connected_connect_raises m e Hnot Hout). reflexivity.
  - cbn. rewrite <- !app_assoc. repeat split; reflexivity.
Qed.

Lemma command_on_unreachable_device_witness :
  exists m',
    run_command TurnOn (FindnLedDevice (unreachable BleakNotFoundError)) =
      (Raise BleakNotFoundError, m') /\
    trace m' =
      [EvAcquire _connect_lock; EvEstablishConnection;
       EvRelease _connect_lock] /\
    write_calls m' = 0%nat.
Proof.
  destruct (command_on_unreachable_device
              TurnOn _ (FindnLedDevice (unreachable BleakNotFoundError))
              BleakNotFoundError eq_refl eq_refl eq_refl)
    as (m' & Hrun & Htr & _ & Hwr & _).
  exists m'. split; [exact Hrun |]. split; [exact Htr | exact Hwr].
Defined.

(** [stop()] does not cancel the idle timer, so the timer can still fire
    after it; the teardown the timer then starts finds no client: it takes
    and releases the connect lock and makes no transport call, and the
    device stays disconnected. *)
Theorem stop_then_idle_timeout (m : machine) :
  exists m1 m2,
    stop m = (Return tt, m1) /\
    _disconnect_timer m1 = _disconnect_timer m /\
    _disconnect m1 = (Return tt, m2) /\
    trace m2 = trace m1 ++ [EvAcquire _connect_lock; EvRelease _connect_lock] /\
    _disconnect_timer m2 = None /\
    _client m2 = None /\
    _write_char m2 = None /\
    _expected_disconnect m2 = true.
Proof.
  unfold stop, _disconnect, _execute_timed_disconnect, _execute_disconnect.
  destruct m as [st wc dt cl ed cb t cc wcalls tr].
  cbv [async_with bind get modify ret client_disconnect]. cbn.
  destruct cl as [c |]; [destruct (is_connected c) |]; cbn;
    eexists; eexists; (split; [reflexivity |]); cbn;
    (split; [reflexivity |]); (split; [reflexivity |]); cbn;
    rewrite <- ?app_assoc; repeat split; reflexivity.
Qed.

(** Connecting, sending and disconnecting never touch what the facade
    shows: whatever their outcome, [_send_command], [update()], [stop()]
    and the timer's [_disconnect] leave the logical state and the
    registered callback as they were and do not run the callback. *)
Theorem transport_operations_leave_facade
    (commands : list Z + list (list Z)) (m : machine) (operation : M unit) :
  In operation [_send_command commands; update; stop; _disconnect] ->
  _state (snd (operation m)) = _state m /\
  _update_callback (snd (operation m)) = _update_callback m /\
  notifications (trace (snd (operation m))) = notifications (trace m).
Proof.
  intros Hin.
  assert (Hquiet : quiet operation).
  { cbn in Hin. destruct Hin as [<- | [<- | [<- | [<- | []]]]].
    - apply quiet_send_command.
    - apply quiet_ensure_connected.
    - apply quiet_execute_disconnect.
    - unfold _disconnect, _execute_timed_disconnect.
      apply quiet_bind; [| intros _; apply quiet_execute_disconnect].
      apply quiet_modify. intros m0. reflexivity. }
  specialize (Hquiet m). unfold facade_view in Hquiet.
  injection Hquiet as Hs Hu Hn. repeat split; assumption.
Qed.

Lemma transport_operations_leave_facade_witness :
  _state (snd (stop (connected_device always_ok))) =
    _state (connected_device always_ok) /\
  notifications (trace (snd (stop (connected_device always_ok)))) = [].
Proof.
  destruct (transport_operations_leave_facade
              (inl []) (connected_device always_ok) stop
              (or_intror (or_intror (or_introl eq_refl))))
    as (Hs & _ & Hn).
  split; [exact Hs | exact Hn].
Defined.

(** * Lock discipline *)

Lemma lock_eqb_refl (l : lock) : lock_eqb l l = true.
Proof. destruct l; reflexivity. Qed.

Lemma lock_run_app (held : list lock) (evs1 evs2 : list event) :
  lock_run held (evs1 ++ evs2) =
  match lock_run held evs1 with
  | Some held' => lock_run held' evs2
  | None => None
  end.
Proof.
  revert held. induction evs1 as [| ev evs1 IH]; intros held; [reflexivity |].
  destruct ev; cbn; try apply IH.
  - destruct (existsb (lock_eqb l) held); [reflexivity | apply IH].
  - destruct held as [| top held']; [reflexivity |].
    destruct (lock_eqb l top); [apply IH | reflexivity].
Qed.

Create HintDb locks discriminated.

Section Discipline.

Variable held : list lock.

Lemma disciplined_ret (A : Type) (a : A) : disciplined held (ret a).
Proof. intros m. exists []. cbn. rewrite app_nil_r. split; reflexivity. Qed.

Lemma disciplined_raise (A : Type) (e : exn) : disciplined held (@raise A e).
Proof. intros m. exists []. cbn. rewrite app_nil_r. split; reflexivity. Qed.

Lemma disciplined_get : disciplined held get.
Proof. intros m. exists []. cbn. rewrite app_nil_r. split; reflexivity. Qed.

Lemma disciplined_bind (A B : Type) (c : M A) (k : A -> M B) :
  disciplined held c -> (forall a, disciplined held (k a)) ->
  disciplined held (bind c k).
Proof.
  intros Hc Hk m. unfold bind.
  destruct (Hc m) as (evs1 & Htr1 & Hl1).
  destruct (c m) as [[a | e] m1]; cbn in *.
  - destruct (Hk a m1) as (evs2 & Htr2 & Hl2).
    exists (evs1 ++ evs2). split.
    + rewrite Htr2, Htr1, app_assoc. reflexivity.
    + rewrite lock_run_app, Hl1. exact Hl2.
  - exists evs1. split; assumption.
Qed.

Lemma disciplined_try_except (A : Type) (c : M A) (handler : exn -> M A) :
  disciplined held c -> (forall e, disciplined held (handler e)) ->
  disciplined held (try_except c handler).
Proof.
  intros Hc Hh m. unfold try_except.
  destruct (Hc m) as (evs1 & Htr1 & Hl1).
  destruct (c m) as [[a | e] m1]; cbn in *.
  - exists evs1. split; assumption.
  - destruct (Hh e m1) as (evs2 & Htr2 & Hl2).
    exists (evs1 ++ evs2). split.
    + rewrite Htr2, Htr1, app_assoc. reflexivity.
    + rewrite lock_run_app, Hl1. exact Hl2.
Qed.

Lemma disciplined_emit (ev : event) :
  lock_run held [ev] = Some held -> disciplined held (emit ev).
Proof. intros Hev m. exists [ev]. split; [reflexivity | exact Hev]. Qed.

Lemma disciplined_modify (f : machine -> machine) :
  (forall m, trace (f m) = trace m) -> disciplined held (modify f).
Proof.
  intros Hf m. exists []. cbn. rewrite app_nil_r, Hf. split; reflexivity.
Qed.

Lemma disciplined_if (A : Type) (b : bool) (c1 c2 : M A) :
  disciplined held c1 -> disciplined held c2 ->
  disciplined held (if b then c1 else c2).
Proof. destruct b; auto. Qed.

Lemma disciplined_lift (A : Type) (r : result A) : disciplined held (lift r).
Proof. destruct r; [apply disciplined_ret | apply disciplined_raise]. Qed.

Lemma disciplined_establish_connection : disciplined held establish_connection.
Proof.
  intros m. exists [EvEstablishConnection]. unfold establish_connection.
  destruct (establish_connection_outcome (env m) (connect_calls m))
    as [[cached fetched] | e]; cbn; split; reflexivity.
Qed.

Lemma disciplined_write_gatt_char (char : characteristic) (command : list Z) :
  disciplined held (write_gatt_char char command).
Proof.
  intros m. exists [EvWrite char command]. unfold write_gatt_char.
  destruct (write_gatt_char_outcome (env m) (write_calls m)) as [| e up];
    cbn; [| destruct (_client m)]; cbn; split; reflexivity.
Qed.

Lemma disciplined_client_disconnect : disciplined held client_disconnect.
Proof.
  intros m. exists [EvClientDisconnect (_expected_disconnect m)].
  split; reflexivity.
Qed.

End Discipline.

Lemma disciplined_async_with
    (A : Type) (held : list lock) (l : lock) (body : M A) :
  existsb (lock_eqb l) held = false ->
  disciplined (l :: held) body ->
  disciplined held (async_with l body).
Proof.
  intros Hfree Hb m. unfold async_with.
  destruct (Hb (log_event (EvAcquire l) m)) as (evs & Htr & Hl).
  destruct (body (log_event (EvAcquire l) m)) as [r m1]; cbn in *.
  exists (EvAcquire l :: evs ++ [EvRelease l]). split.
  - rewrite Htr, <- !app_assoc. reflexivity.
  - cbn [lock_run]. rewrite Hfree, lock_run_app, Hl. cbn.
    rewrite lock_eqb_refl. reflexivity.
Qed.

#[local] Hint Resolve disciplined_ret disciplined_raise disciplined_get
  disciplined_lift disciplined_establish_connection
  disciplined_write_gatt_char disciplined_client_disconnect : locks.

(** Takes a coroutine apart along its sequencing, its branches and its
    [async with] blocks; what is left is about single events and
    assignments. *)
Ltac discipline :=
  repeat first
    [ solve [auto with locks]
    | apply disciplined_bind; [| intros ?]
    | apply disciplined_try_except; [| intros ?]
    | apply disciplined_async_with; [reflexivity |]
    | apply disciplined_emit; reflexivity
    | apply disciplined_modify; intros ?; reflexivity
    | apply disciplined_if
    | match goal with
      | |- disciplined _ (match ?x with _ => _ end) => destruct x
      end ].

Lemma disciplined_reset_disconnect_timer (held : list lock) :
  disciplined held _reset_disconnect_timer.
Proof. unfold _reset_disconnect_timer. discipline. Qed.

Lemma disciplined_resolve_characteristics
    (held : list lock) (found : option characteristic) :
  disciplined held (_resolve_characteristics found).
Proof. unfold _resolve_characteristics. discipline. Qed.

#[local] Hint Resolve disciplined_reset_disconnect_timer
  disciplined_resolve_characteristics : locks.

(** [_ensure_connected] and [_execute_disconnect] take the connect lock:
    they may be called with any lock held but that one. *)
Lemma disciplined_ensure_connected (held : list lock) :
  existsb (lock_eqb _connect_lock) held = false ->
  disciplined held _ensure_connected.
Proof.
  intros Hfree. unfold _ensure_connected, client_get_services.
  apply disciplined_bind; [auto with locks | intros m0].
  apply disciplined_if; [auto with locks |].
  apply disciplined_async_with; [exact Hfree |].
  discipline.
Qed.

Lemma disciplined_execute_disconnect (held : list lock) :
  existsb (lock_eqb _connect_lock) held = false ->
  disciplined held _execute_disconnect.
Proof.
  intros Hfree. unfold _execute_disconnect.
  apply disciplined_async_with; [exact Hfree |].
  discipline.
Qed.

Lemma disciplined_write_commands
    (held : list lock) (char : characteristic) (commands : list (list Z)) :
  disciplined held (write_commands char commands).
Proof.
  induction commands as [| command rest IH]; cbn [write_commands].
  - apply disciplined_ret.
  - apply disciplined_bind; [apply disciplined_write_gatt_char |].
    intros _. exact IH.
Qed.

Lemma disciplined_send_command_locked_body
    (held : list lock) (commands : list (list Z)) :
  existsb (lock_eqb _connect_lock) held = false ->
  disciplined held (_send_command_locked_body commands).
Proof.
  intros Hfree.
  unfold _send_command_locked_body, _execute_command_locked, sleep.
  apply disciplined_try_except.
  - apply disciplined_bind; [apply disciplined_get | intros m0].
    destruct (_client m0); [destruct (_write_char m0) |];
      auto using disciplined_write_commands, disciplined_raise.
  - intros e.
    destruct (is_BleakDBusError e); [| destruct (is_BleakError e)];
      repeat first
        [ apply disciplined_execute_disconnect; exact Hfree
        | apply disciplined_raise
        | apply disciplined_emit; reflexivity
        | apply disciplined_bind; [| intros ?] ].
Qed.

Lemma disciplined_retry (held : list lock) (attempts : nat) (func : M unit) :
  disciplined held func ->
  disciplined held (retry_bluetooth_connection_error attempts func).
Proof.
  intros Hf.
  induction attempts as [| [| attempts] IH];
    cbn [retry_bluetooth_connection_error];
    [apply disciplined_ret | exact Hf |].
  apply disciplined_try_except; [exact Hf |].
  intros e. destruct (retryable e); [exact IH | apply disciplined_raise].
Qed.

Lemma disciplined_send_command (commands : list Z + list (list Z)) :
  disciplined [] (_send_command commands).
Proof.
  unfold _send_command, _send_command_while_connected, _send_command_locked.
  apply disciplined_bind;
    [apply disciplined_ensure_connected; reflexivity | intros _].
  apply disciplined_async_with; [reflexivity |].
  apply disciplined_try_except; [| intros e; apply disciplined_raise].
  apply disciplined_retry, disciplined_send_command_locked_body. reflexivity.
Qed.

Lemma disciplined_update_callback (held : list lock) :
  disciplined held update_callback.
Proof. unfold update_callback. discipline. Qed.

Lemma disciplined_run_command (c : command) : disciplined [] (run_command c).
Proof.
  destruct c; cbn [run_command];
    unfold turn_on, turn_off, set_brightness, set_hs_color, set_effect;
    repeat first
      [ apply disciplined_send_command
      | apply disciplined_update_callback
      | apply disciplined_lift
      | apply disciplined_modify; intros ?; reflexivity
      | apply disciplined_bind; [| intros ?] ].
Qed.

Lemma disciplined_async_turn_on
    (int : String.string -> result Z) (kw : kwargs) :
  disciplined [] (FindnLedLight.async_turn_on int kw).
Proof.
  unfold FindnLedLight.async_turn_on.
  apply disciplined_bind; [| intros _].
  { destruct (ATTR_HS_COLOR kw) as [hs |];
      [exact (disciplined_run_command (SetHsColor hs)) | apply disciplined_ret]. }
  apply disciplined_bind; [| intros _].
  { destruct (ATTR_BRIGHTNESS kw) as [brightness |]; [| apply disciplined_ret].
    destruct (brightness =? 0);
      [apply disciplined_ret
      | exact (disciplined_run_command (SetBrightness brightness))]. }
  apply disciplined_bind; [| intros _].
  { destruct (ATTR_EFFECT kw) as [[| a text] |]; try apply disciplined_ret.
    apply disciplined_bind; [apply disciplined_lift | intros effect].
    exact (disciplined_run_command (SetEffect effect)). }
  apply disciplined_bind; [apply disciplined_get | intros m0].
  destruct (negb (power (_state m0)));
    [exact (disciplined_run_command TurnOn) | apply disciplined_ret].
Qed.

(** No coroutine of the device waits for a lock it holds.  Whatever the
    transport does and whatever state the device is in, the lock events of
    any public operation (the five commands, [update()], [stop()], the
    idle-timeout teardown, the light's [async_turn_on]) are well nested: a lock is never acquired while
    it is held, each release is of the lock acquired last, and every lock
    taken has been released when the operation returns or raises. *)
Theorem locks_are_never_reentered (operation : M unit) (m : machine) :
  (exists c, operation = run_command c) \/
  In operation [update; stop; _disconnect] \/
  (exists int kw, operation = FindnLedLight.async_turn_on int kw) ->
  exists evs,
    trace (snd (operation m)) = trace m ++ evs /\
    lock_run [] evs = Some [].
Proof.
  intros Hop.
  assert (Hd : disciplined [] operation).
  { destruct Hop as [[c ->] | [Hin | (int & kw & ->)]].
    - apply disciplined_run_command.
    - cbn in Hin. destruct Hin as [<- | [<- | [<- | []]]].
      + apply disciplined_ensure_connected. reflexivity.
      + apply disciplined_execute_disconnect. reflexivity.
      + unfold _disconnect, _execute_timed_disconnect.
        apply disciplined_bind;
          [apply disciplined_modify; intros m0; reflexivity | intros _].
        apply disciplined_execute_disconnect. reflexivity.
    - apply disciplined_async_turn_on. }
  exact (Hd m).
Qed.

Lemma locks_are_never_reentered_witness :
  exists evs,
    trace (snd (turn_on (FindnLedDevice (always_failing BleakDBusError)))) =
      [] ++ evs /\
    lock_run [] evs = Some [].
Proof.
  exact (locks_are_never_reentered turn_on
           (FindnLedDevice (always_failing BleakDBusError))
           (or_introl (ex_intro _ TurnOn eq_refl))).
Defined.

(** * The light entity *)

Lemma bind_returns
    (A B : Type) (c : M A) (k : A -> M B) (m m' : machine) (b : B) :
  bind c k m = (Return b, m') ->
  exists a m1, c m = (Return a, m1) /\ k a m1 = (Return b, m').
Proof.
  unfold bind. intros H.
  destruct (c m) as [[a | e] m1]; [| discriminate].
  exists a, m1. split; [reflexivity | exact H].
Qed.

Lemma turn_on_returns (m m' : machine) :
  turn_on m = (Return tt, m') -> power (_state m') = true.
Proof.
  intros Hret.
  pose proof (commit_after_send (inl FindnLedBLEProtocol.turn_on_command)
                (fun s => replace_power s true) m) as Hcommit.
  destruct (_send_command (inl FindnLedBLEProtocol.turn_on_command) m)
    as [[[] | e] m1].
  - destruct Hcommit as (m2 & Hrun & Hst & _).
    assert (Hon : turn_on m = (Return tt, m2)) by exact Hrun.
    rewrite Hon in Hret. injection Hret as <-. rewrite Hst. reflexivity.
  - destruct Hcommit as (Hrun & _).
    assert (Hon : turn_on m = (Raise e, m1)) by exact Hrun.
    rewrite Hon in Hret. discriminate.
Qed.

(** When [async_turn_on] returns, the device is on in its logical state,
    whatever the keyword arguments were and whatever the device did on the
    way: either it was on already after the colour, brightness and effect
    commands, or [turn_on()] was sent last and returned. *)
Theorem async_turn_on_turns_on
    (int : String.string -> result Z) (kw : kwargs) (m m' : machine) :
  FindnLedLight.async_turn_on int kw m = (Return tt, m') ->
  power (_state m') = true.
Proof.
  unfold FindnLedLight.async_turn_on. intros Hret.
  apply bind_returns in Hret. destruct Hret as (_ & m1 & _ & Hret).
  apply bind_returns in Hret. destruct Hret as (_ & m2 & _ & Hret).
  apply bind_returns in Hret. destruct Hret as (_ & m3 & _ & Hret).
  unfold bind, get in Hret.
  destruct (power (_state m3)) eqn:Hon; cbn in Hret.
  - injection Hret as <-. exact Hon.
  - apply turn_on_returns in Hret. exact Hret.
Qed.

Lemma async_turn_on_turns_on_witness :
  power (_state (snd (FindnLedLight.async_turn_on
                        (fun _ => Return 3)
                        {| ATTR_HS_COLOR := None;
                           ATTR_BRIGHTNESS := Some 128;
                           ATTR_EFFECT := None |}
                        (FindnLedDevice always_ok)))) = true.
Proof.
  pose (m' := snd (FindnLedLight.async_turn_on
                     (fun _ => Return 3)
                     {| ATTR_HS_COLOR := None; ATTR_BRIGHTNESS := Some 128;
                        ATTR_EFFECT := None |}
                     (FindnLedDevice always_ok))).
  vm_compute in m'.
  assert (Hret :
    FindnLedLight.async_turn_on (fun _ => Return 3)
      {| ATTR_HS_COLOR := None; ATTR_BRIGHTNESS := Some 128;
         ATTR_EFFECT := None |}
      (FindnLedDevice always_ok) = (Return tt, m'))
    by (vm_compute; reflexivity).
  pose proof (async_turn_on_turns_on _ _ _ _ Hret) as Hon.
  exact Hon.
Defined.

(** [async_turn_on] with nothing to change on a device that is on in its
    logical state does nothing: with no colour given, no brightness or
    brightness 0, and no effect or the empty string, nothing is sent, no
    connection is made, and the device is left exactly as it was. *)
Theorem async_turn_on_nothing_to_do
    (int : String.string -> result Z) (kw : kwargs) (m : machine) :
  power (_state m) = true ->
  ATTR_HS_COLOR kw = None ->
  ATTR_BRIGHTNESS kw = None \/ ATTR_BRIGHTNESS kw = Some 0 ->
  ATTR_EFFECT kw = None \/ ATTR_EFFECT kw = Some String.EmptyString ->
  FindnLedLight.async_turn_on int kw m = (Return tt, m).
Proof.
  intros Hon Hhs Hbr Heff. unfold FindnLedLight.async_turn_on.
  rewrite Hhs.
  destruct Hbr as [-> | ->], Heff as [-> | ->];
    cbv [bind ret get]; cbn; rewrite Hon; reflexivity.
Qed.

Lemma async_turn_on_nothing_to_do_witness :
  FindnLedLight.async_turn_on (fun _ => Raise ValueError)
    {| ATTR_HS_COLOR := None; ATTR_BRIGHTNESS := Some 0;
       ATTR_EFFECT := Some String.EmptyString |}
    (snd (turn_on (FindnLedDevice always_ok))) =
  (Return tt, snd (turn_on (FindnLedDevice always_ok))).
Proof.
  apply (async_turn_on_nothing_to_do (fun _ => Raise ValueError)
           {| ATTR_HS_COLOR := None; ATTR_BRIGHTNESS := Some 0;
              ATTR_EFFECT := Some String.EmptyString |}
           (snd (turn_on (FindnLedDevice always_ok)))).
  - vm_compute. reflexivity.
  - reflexivity.
  - right. reflexivity.
  - right. reflexivity.
Defined.

Lemma writes_succeed_always (m m1 : machine) (n : nat) :
  (forall i, write_gatt_char_outcome (env m) i = WriteOk) ->
  env m1 = env m ->
  writes_succeed m1 n.
Proof. intros Hall Henv i _. rewrite Henv. apply Hall. Qed.

(** [async_turn_on] with a colour, a brightness and an effect, on a
    connected device over a transport that takes every frame: the colour
    frame is written first, then the brightness frame, then the two effect
    frames, and the turn-on frame last and only when the device was off;
    all go to the resolved write characteristic over the connection that
    was there; at the end the logical state holds the three new values and
    the device is on. *)
Theorem async_turn_on_frames
    (int : String.string -> result Z) (m : machine) (char : characteristic)
    (hs : Q * Q) (brightness : Z) (effect_text : String.string) (effect : Z)
    (hs_frame brightness_frame : list Z) (effect_frames : list (list Z)) :
  client_is_connected m = true ->
  _write_char m = Some char ->
  (forall i, write_gatt_char_outcome (env m) i = WriteOk) ->
  FindnLedBLEProtocol.construct_set_hs_color_cmd hs = Return hs_frame ->
  brightness <> 0 ->
  FindnLedBLEProtocol.construct_set_brightness_cmd brightness =
    Return brightness_frame ->
  effect_text <> String.EmptyString ->
  int effect_text = Return effect ->
  FindnLedBLEProtocol.construct_set_effect_cmd effect = Return effect_frames ->
  exists m',
    FindnLedLight.async_turn_on int
      {| ATTR_HS_COLOR := Some hs; ATTR_BRIGHTNESS := Some brightness;
         ATTR_EFFECT := Some effect_text |} m = (Return tt, m') /\
    writes (trace m') =
      writes (trace m)
      ++ map (pair char)
           (hs_frame :: brightness_frame :: effect_frames
            ++ (if power (_state m) then []
                else [FindnLedBLEProtocol.turn_on_command])) /\
    _state m' =
      {| power := true; hs := hs; brightness := brightness;
         effect := Some effect |} /\
    connect_calls m' = connect_calls m.
Proof.
  intros Hconn Hw Hall Hhs Hnz Hbr Htext Hint Heff.
  assert (Hf1 : frames_of (SetHsColor hs) = Return (inl hs_frame))
    by (cbn; rewrite Hhs; reflexivity).
  assert (Hf2 : frames_of (SetBrightness brightness) =
                Return (inl brightness_frame))
    by (cbn; rewrite Hbr; reflexivity).
  assert (Hf3 : frames_of (SetEffect effect) = Return (inr effect_frames))
    by (cbn; rewrite Heff; reflexivity).
  destruct (run_command_on_connected_device _ _ m char Hf1 Hconn Hw
              (writes_succeed_always m m _ Hall eq_refl))
    as (m1 & Hrun1 & Hst1 & Hwrs1 & _ & Hcc1 & _ & Hconn1 & Hw1 & _ & Henv1).
  destruct (run_command_on_connected_device _ _ m1 char Hf2 Hconn1 Hw1
              (writes_succeed_always m m1 _ Hall Henv1))
    as (m2 & Hrun2 & Hst2 & Hwrs2 & _ & Hcc2 & _ & Hconn2 & Hw2 & _ & Henv2).
  rewrite Henv1 in Henv2.
  destruct (run_command_on_connected_device _ _ m2 char Hf3 Hconn2 Hw2
              (writes_succeed_always m m2 _ Hall Henv2))
    as (m3 & Hrun3 & Hst3 & Hwrs3 & _ & Hcc3 & _ & Hconn3 & Hw3 & _ & Henv3).
  rewrite Henv2 in Henv3.
  cbn [run_command] in Hrun1, Hrun2, Hrun3.
  assert (Hthree :
    exists k,
      FindnLedLight.async_turn_on int
        {| ATTR_HS_COLOR := Some hs; ATTR_BRIGHTNESS := Some brightness;
           ATTR_EFFECT := Some effect_text |} m =
      k m3 /\
      k m3 = (if negb (power (_state m3)) then turn_on else ret tt) m3).
  { eexists. split; [| reflexivity].
    unfold FindnLedLight.async_turn_on.
    cbn [ATTR_HS_COLOR ATTR_BRIGHTNESS ATTR_EFFECT].
    unfold bind at 1. rewrite Hrun1.
    unfold bind at 1.
    destruct (Z.eqb_spec brightness 0) as [H0 | _]; [contradiction |].
    rewrite Hrun2.
    unfold bind at 1.
    destruct effect_text as [| a text]; [contradiction |].
    unfold bind at 1. rewrite Hint. cbn [lift]. unfold ret at 1.
    rewrite Hrun3. reflexivity. }
  destruct Hthree as (k & -> & ->).
  assert (Hst : _state m3 =
                {| power := power (_state m); hs := hs;
                   brightness := brightness; effect := Some effect |}).
  { rewrite Hst3, Hst2, Hst1. reflexivity. }
  assert (Hwrs : writes (trace m3) =
                 writes (trace m)
                 ++ map (pair char) (hs_frame :: brightness_frame
                                     :: effect_frames)).
  { rewrite Hwrs3, Hwrs2, Hwrs1. cbn [frame_list map].
    rewrite <- !app_assoc. reflexivity. }
  rewrite Hst. cbn [power].
  destruct (power (_state m)) eqn:Hon; cbn [negb].
  - exists m3. split; [reflexivity |].
    rewrite Hwrs, Hst, Hcc3, Hcc2, Hcc1, app_nil_r.
    repeat split; reflexivity.
  - destruct (run_command_on_connected_device TurnOn _ m3 char eq_refl
                Hconn3 Hw3 (writes_succeed_always m m3 _ Hall Henv3))
      as (m4 & Hrun4 & Hst4 & Hwrs4 & _ & Hcc4 & _).
    exists m4. split; [exact Hrun4 |].
    rewrite Hwrs4, Hwrs, Hst4, Hst, Hcc4, Hcc3, Hcc2, Hcc1.
    cbn [frame_list map]. rewrite <- !app_assoc, !map_app.
    repeat split; reflexivity.
Qed.

Lemma async_turn_on_frames_witness :
  exists m',
    FindnLedLight.async_turn_on (fun _ => Return (-3))
      {| ATTR_HS_COLOR := Some (120%Q, 50%Q); ATTR_BRIGHTNESS := Some 255;
         ATTR_EFFECT := Some "-3"%string |}
      (connected_device always_ok) = (Return tt, m') /\
    writes (trace m') =
      [(7%nat, [0xBC; 0x04; 0x06; 0; 120; 1; 244; 0x00; 0x00; 0x55]);
       (7%nat, [0xBC; 0x05; 0x06; 3; 232; 0x00; 0x00; 0x00; 0x00; 0x55]);
       (7%nat, [0xBC; 0x06; 0x02; 0x00; 0x03; 0x55]);
       (7%nat, [0xBC; 0x07; 0x01; 0x00; 0x55]);
       (7%nat, [0xBC; 0x01; 0x01; 0x01; 0x55])] /\
    _state m' =
      {| power := true; hs := (120%Q, 50%Q); brightness := 255;
         effect := Some (-3) |}.
Proof.
  destruct (async_turn_on_frames
              (fun _ => Return (-3)) (connected_device always_ok) 7%nat
              (120%Q, 50%Q) 255
              "-3"%string
              (-3) _ _ _
              eq_refl eq_refl (fun _ => eq_refl) eq_refl
              ltac:(discriminate) eq_refl ltac:(discriminate) eq_refl eq_refl)
    as (m' & Hrun & Hwrs & Hst & _).
  exists m'. split; [exact Hrun |]. split; [exact Hwrs | exact Hst].
Defined.

(** [async_turn_on] applies its arguments one after the other: with a colour
    and an effect text that [int] rejects, the colour frame has been written
    and the colour committed when the fault of [int] reaches the caller; the
    effect is not sent and the device is not turned on. *)
Theorem async_turn_on_effect_not_a_number
    (int : String.string -> result Z) (m : machine) (char : characteristic)
    (colour : Q * Q) (colour_frame : list Z) (effect_text : String.string)
    (e : exn) :
  client_is_connected m = true ->
  _write_char m = Some char ->
  writes_succeed m 1 ->
  FindnLedBLEProtocol.construct_set_hs_color_cmd colour = Return colour_frame ->
  effect_text <> String.EmptyString ->
  int effect_text = Raise e ->
  exists m',
    FindnLedLight.async_turn_on int
      {| ATTR_HS_COLOR := Some colour; ATTR_BRIGHTNESS := None;
         ATTR_EFFECT := Some effect_text |} m = (Raise e, m') /\
    writes (trace m') = writes (trace m) ++ [(char, colour_frame)] /\
    hs (_state m') = colour /\
    power (_state m') = power (_state m) /\
    effect (_state m') = effect (_state m).
Proof.
  intros Hconn Hw Hok Hhs Htext Hint.
  assert (Hf1 : frames_of (SetHsColor colour) = Return (inl colour_frame))
    by (cbn; rewrite Hhs; reflexivity).
  destruct (run_command_on_connected_device _ _ m char Hf1 Hconn Hw Hok)
    as (m1 & Hrun1 & Hst1 & Hwrs1 & _).
  cbn [run_command] in Hrun1.
  exists m1. split.
  - unfold FindnLedLight.async_turn_on.
    cbn [ATTR_HS_COLOR ATTR_BRIGHTNESS ATTR_EFFECT].
    unfold bind at 1. rewrite Hrun1.
    unfold bind at 1. unfold ret at 1.
    unfold bind at 1.
    destruct effect_text as [| a text]; [contradiction |].
    unfold bind at 1. rewrite Hint. reflexivity.
  - rewrite Hwrs1, Hst1. repeat split; reflexivity.
Qed.

Lemma async_turn_on_effect_not_a_number_witness :
  exists m',
    FindnLedLight.async_turn_on (fun _ => Raise ValueError)
      {| ATTR_HS_COLOR := Some (120%Q, 50%Q); ATTR_BRIGHTNESS := None;
         ATTR_EFFECT := Some "rainbow"%string |}
      (connected_device always_ok) = (Raise ValueError, m') /\
    writes (trace m') =
      [(7%nat, [0xBC; 0x04; 0x06; 0; 120; 1; 244; 0x00; 0x00; 0x55])] /\
    hs (_state m') = (120%Q, 50%Q) /\
    power (_state m') = false.
Proof.
  destruct (async_turn_on_effect_not_a_number
              (fun _ => Raise ValueError) (connected_device always_ok) 7%nat
              (120%Q, 50%Q) _ "rainbow"%string ValueError
              eq_refl eq_refl (fun i _ => eq_refl) eq_refl
              ltac:(discriminate) eq_refl)
    as (m' & Hrun & Hwrs & Hhs & Hon & _).
  exists m'. split; [exact Hrun |].
  split; [exact Hwrs |]. split; [exact Hhs | exact Hon].
Defined.

(** * The connection invariant *)

Lemma keeps_ret (A : Type) (a : A) : keeps_invariant (ret a).
Proof. intros m H. exact H. Qed.

Lemma keeps_raise (A : Type) (e : exn) : keeps_invariant (@raise A e).
Proof. intros m H. exact H. Qed.

Lemma keeps_lift (A : Type) (r : result A) : keeps_invariant (lift r).
Proof. destruct r; [apply keeps_ret | apply keeps_raise]. Qed.

Lemma keeps_get : keeps_invariant get.
Proof. intros m H. exact H. Qed.

Lemma keeps_bind (A B : Type) (c : M A) (k : A -> M B) :
  keeps_invariant c -> (forall a, keeps_invariant (k a)) -> keeps_invariant (bind c k).
Proof.
  intros Hc Hk m Hinv. unfold bind.
  specialize (Hc m Hinv). destruct (c m) as [[a | e] m1]; cbn in *.
  - apply Hk, Hc.
  - exact Hc.
Qed.

Lemma keeps_try_except (A : Type) (c : M A) (handler : exn -> M A) :
  keeps_invariant c -> (forall e, keeps_invariant (handler e)) -> keeps_invariant (try_except c handler).
Proof.
  intros Hc Hh m Hinv. unfold try_except.
  specialize (Hc m Hinv). destruct (c m) as [[a | e] m1]; cbn in *.
  - exact Hc.
  - apply Hh, Hc.
Qed.

Lemma keeps_emit (ev : event) : keeps_invariant (emit ev).
Proof. intros m H. exact H. Qed.

Lemma keeps_async_with (A : Type) (l : lock) (body : M A) :
  keeps_invariant body -> keeps_invariant (async_with l body).
Proof.
  intros Hb m Hinv. unfold async_with.
  specialize (Hb (log_event (EvAcquire l) m) Hinv).
  destruct (body (log_event (EvAcquire l) m)) as [r m1]. exact Hb.
Qed.

Lemma keeps_write_gatt_char (char : characteristic) (command : list Z) :
  keeps_invariant (write_gatt_char char command).
Proof.
  intros m [Hchar Htimer].
  destruct m as [st wc dt cl ed cb t cc wcalls tr].
  unfold write_gatt_char, connection_invariant in *. cbn in *.
  destruct (write_gatt_char_outcome t wcalls) as [| e up]; cbn;
    [exact (conj Hchar Htimer) |].
  destruct cl as [c |]; cbn; [| exact (conj Hchar Htimer)].
  split; [discriminate |]. intros _. apply Htimer. discriminate.
Qed.

Lemma keeps_write_commands (char : characteristic) (commands : list (list Z)) :
  keeps_invariant (write_commands char commands).
Proof.
  induction commands as [| command rest IH]; cbn [write_commands].
  - apply keeps_ret.
  - apply keeps_bind; [apply keeps_write_gatt_char | intros _; exact IH].
Qed.

Lemma keeps_execute_disconnect : keeps_invariant _execute_disconnect.
Proof.
  intros m _.
  destruct (_execute_disconnect_spec m) as (m' & Hrun & (Hc & Hw & _) & _).
  rewrite Hrun. cbn. split; [intros _; exact Hw |].
  intros Hsome. contradiction.
Qed.

Lemma keeps_ensure_connected : keeps_invariant _ensure_connected.
Proof.
  intros m [Hchar Htimer].
  destruct (client_is_connected m) eqn:Hconn.
  - rewrite (_ensure_connected_when_connected m Hconn).
    destruct (_reset_disconnect_timer_spec m)
      as (m' & Hrun & Htm & _ & _ & Hcl & Hwc & _).
    rewrite Hrun. cbn. split.
    + rewrite Hcl, Hwc. exact Hchar.
    + intros _. rewrite Htm. discriminate.
  - destruct (establish_connection_outcome (env m) (connect_calls m))
      as [[cached fetched] | e] eqn:Hout.
    + destruct (_ensure_connected_connects m cached fetched Hconn Hout)
        as (m' & Hrun & Hcl & _ & Htm & _).
      rewrite Hrun. cbn. split.
      * rewrite Hcl. discriminate.
      * intros _. rewrite Htm. discriminate.
    + rewrite (_ensure_connected_connect_raises m e Hconn Hout).
      exact (conj Hchar Htimer).
Qed.

Lemma keeps_send_command_locked_body (commands : list (list Z)) :
  keeps_invariant (_send_command_locked_body commands).
Proof.
  unfold _send_command_locked_body, _execute_command_locked, sleep.
  apply keeps_try_except.
  - apply keeps_bind; [apply keeps_get | intros m0].
    destruct (_client m0); [destruct (_write_char m0) |];
      auto using keeps_write_commands, keeps_raise.
  - intros e.
    destruct (is_BleakDBusError e); [| destruct (is_BleakError e)];
      repeat first
        [ apply keeps_execute_disconnect
        | apply keeps_raise
        | apply keeps_emit
        | apply keeps_bind; [| intros ?] ].
Qed.

Lemma keeps_retry (attempts : nat) (func : M unit) :
  keeps_invariant func -> keeps_invariant (retry_bluetooth_connection_error attempts func).
Proof.
  intros Hf.
  induction attempts as [| [| attempts] IH];
    cbn [retry_bluetooth_connection_error];
    [apply keeps_ret | exact Hf |].
  apply keeps_try_except; [exact Hf |].
  intros e. destruct (retryable e); [exact IH | apply keeps_raise].
Qed.

Lemma keeps_send_command (commands : list Z + list (list Z)) :
  keeps_invariant (_send_command commands).
Proof.
  unfold _send_command, _send_command_while_connected, _send_command_locked.
  apply keeps_bind; [apply keeps_ensure_connected | intros _].
  apply keeps_async_with.
  apply keeps_try_except; [| intros e; apply keeps_raise].
  apply keeps_retry, keeps_send_command_locked_body.
Qed.

Lemma keeps_update_callback : keeps_invariant update_callback.
Proof.
  unfold update_callback.
  apply keeps_bind; [apply keeps_get | intros m0].
  destruct (_update_callback m0); [apply keeps_emit | apply keeps_ret].
Qed.

Lemma keeps_commit (replace : FindnLedState -> FindnLedState) :
  keeps_invariant (modify (fun m => set_state (replace (_state m)) m)).
Proof. intros m H. exact H. Qed.

Lemma keeps_run_command (c : command) : keeps_invariant (run_command c).
Proof.
  destruct c; cbn [run_command];
    unfold turn_on, turn_off, set_brightness, set_hs_color, set_effect;
    repeat first
      [ apply keeps_send_command
      | apply keeps_update_callback
      | apply keeps_lift
      | apply (keeps_commit (fun s => replace_power s true))
      | apply (keeps_commit (fun s => replace_power s false))
      | apply (keeps_commit (fun s => replace_brightness s _))
      | apply (keeps_commit (fun s => replace_hs s _))
      | apply (keeps_commit (fun s => replace_effect s _))
      | apply keeps_bind; [| intros ?] ].
Qed.

Lemma keeps_disconnect : keeps_invariant _disconnect.
Proof.
  intros m _. unfold _disconnect, _execute_timed_disconnect, bind, modify.
  destruct (_execute_disconnect_spec (set_disconnect_timer None m))
    as (m' & Hrun & (Hc & Hw & _) & _).
  rewrite Hrun. cbn. split; [intros _; exact Hw |].
  intros Hsome. contradiction.
Qed.

Lemma keeps_async_turn_on
    (int : String.string -> result Z) (kw : kwargs) :
  keeps_invariant (FindnLedLight.async_turn_on int kw).
Proof.
  unfold FindnLedLight.async_turn_on.
  apply keeps_bind; [| intros _].
  { destruct (ATTR_HS_COLOR kw) as [hs |];
      [exact (keeps_run_command (SetHsColor hs)) | apply keeps_ret]. }
  apply keeps_bind; [| intros _].
  { destruct (ATTR_BRIGHTNESS kw) as [brightness |]; [| apply keeps_ret].
    destruct (brightness =? 0);
      [apply keeps_ret | exact (keeps_run_command (SetBrightness brightness))]. }
  apply keeps_bind; [| intros _].
  { destruct (ATTR_EFFECT kw) as [[| a text] |]; try apply keeps_ret.
    apply keeps_bind; [apply keeps_lift | intros effect].
    exact (keeps_run_command (SetEffect effect)). }
  apply keeps_bind; [apply keeps_get | intros m0].
  destruct (negb (power (_state m0)));
    [exact (keeps_run_command TurnOn) | apply keeps_ret].
Qed.

(** The connection invariant holds of a new device and is kept by every
    public operation, whether it returns or raises and whatever the
    transport does: the five commands, [update()], [stop()], the idle
    timeout and the light's [async_turn_on].  So between operations a
    resolved write characteristic always belongs to the current client, and
    a client is never held without a pending idle timer: no connection is
    left open for good. *)
Theorem connection_invariant_kept :
  (forall t, connection_invariant (FindnLedDevice t)) /\
  (forall (operation : M unit) (m : machine),
     (exists c, operation = run_command c) \/
     In operation [update; stop; _disconnect] \/
     (exists int kw, operation = FindnLedLight.async_turn_on int kw) ->
     connection_invariant m ->
     connection_invariant (snd (operation m))).
Proof.
  split.
  - intros t. split; [reflexivity |]. intros H. contradiction.
  - intros operation m Hop.
    assert (Hk : keeps_invariant operation).
    { destruct Hop as [[c ->] | [Hin | (int & kw & ->)]].
      - apply keeps_run_command.
      - cbn in Hin. destruct Hin as [<- | [<- | [<- | []]]].
        + apply keeps_ensure_connected.
        + apply keeps_execute_disconnect.
        + apply keeps_disconnect.
      - apply keeps_async_turn_on. }
    exact (Hk m).
Qed.

Lemma connection_invariant_kept_witness :
  connection_invariant
    (snd (turn_on (FindnLedDevice (always_failing BleakError)))).
Proof.
  apply (proj2 connection_invariant_kept turn_on
           (FindnLedDevice (always_failing BleakError))).
  - left. exists TurnOn. reflexivity.
  - apply (proj1 connection_invariant_kept).
Defined.

(** * What a send can cost *)

Lemma write_commands_calls
    (char : characteristic) (commands : list (list Z)) (m : machine) :
  connect_calls (snd (write_commands char commands m)) = connect_calls m /\
  (write_calls m <= write_calls (snd (write_commands char commands m))
   <= write_calls m + length commands)%nat.
Proof.
  revert m. induction commands as [| command rest IH]; intros m.
  - cbn. lia.
  - cbn [write_commands]. unfold bind.
    assert (Hw : connect_calls (snd (write_gatt_char char command m)) =
                   connect_calls m /\
                 write_calls (snd (write_gatt_char char command m)) =
                   S (write_calls m)).
    { destruct m as [st wc dt cl ed cb t cc wcalls tr].
      unfold write_gatt_char. cbn.
      destruct (write_gatt_char_outcome t wcalls); cbn;
        [| destruct cl; cbn]; split; reflexivity. }
    destruct (write_gatt_char char command m) as [[[] | e] m1];
      cbn [snd] in *.
    + destruct (IH m1) as [Hcc Hwr]. cbn [length]. lia.
    + cbn [length]. lia.
Qed.

Lemma _send_command_locked_body_calls
    (commands : list (list Z)) (m : machine) :
  connect_calls (snd (_send_command_locked_body commands m)) =
    connect_calls m /\
  (write_calls m <= write_calls (snd (_send_command_locked_body commands m))
   <= write_calls m + length commands)%nat.
Proof.
  assert (Hexec :
    connect_calls (snd (_execute_command_locked commands m)) =
      connect_calls m /\
    (write_calls m <= write_calls (snd (_execute_command_locked commands m))
     <= write_calls m + length commands)%nat).
  { unfold _execute_command_locked, bind, get.
    destruct (_client m); [destruct (_write_char m) as [char |] |];
      cbn [snd raise]; try lia.
    apply write_commands_calls. }
  unfold _send_command_locked_body, try_except.
  destruct (_execute_command_locked commands m) as [[[] | e0] m0];
    cbn [snd] in *; [exact Hexec |].
  destruct (is_BleakDBusError e0); [| destruct (is_BleakError e0)].
  - cbv [bind sleep emit modify].
    destruct (_execute_disconnect_spec
                (log_event (EvSleep BLEAK_BACKOFF_TIME) m0))
      as (m2 & Hrun & _ & _ & _ & _ & _ & Hcc & Hwr).
    rewrite Hrun. cbn in *. lia.
  - cbv [bind].
    destruct (_execute_disconnect_spec m0)
      as (m2 & Hrun & _ & _ & _ & _ & _ & Hcc & Hwr).
    rewrite Hrun. cbn in *. lia.
  - exact Hexec.
Qed.

Lemma _send_command_while_connected_machine
    (commands : list (list Z)) (m : machine) :
  snd (_send_command_while_connected commands m) =
  log_event (EvRelease _operation_lock)
    (snd (_send_command_locked_body commands
            (log_event (EvAcquire _operation_lock) m))).
Proof.
  unfold _send_command_while_connected, async_with, try_except.
  rewrite _send_command_locked_one_attempt.
  destruct (_send_command_locked_body commands
              (log_event (EvAcquire _operation_lock) m))
    as [[[] | e] m1]; reflexivity.
Qed.

Lemma _ensure_connected_calls (m : machine) :
  (connect_calls m <= connect_calls (snd (_ensure_connected m))
   <= S (connect_calls m))%nat /\
  write_calls (snd (_ensure_connected m)) = write_calls m.
Proof.
  destruct (client_is_connected m) eqn:Hconn.
  - rewrite (_ensure_connected_when_connected m Hconn).
    destruct (_reset_disconnect_timer_spec m)
      as (m' & Hrun & _ & _ & _ & _ & _ & _ & _ & Hcc & Hwr).
    rewrite Hrun. cbn. lia.
  - destruct (establish_connection_outcome (env m) (connect_calls m))
      as [[cached fetched] | e] eqn:Hout.
    + destruct (_ensure_connected_connects m cached fetched Hconn Hout)
        as (m' & Hrun & _ & _ & _ & _ & _ & _ & _ & Hcc & Hwr).
      rewrite Hrun. cbn. lia.
    + rewrite (_ensure_connected_connect_raises m e Hconn Hout). cbn. lia.
Qed.

(** What one [_send_command] can cost, whatever the transport does and
    whatever the outcome: at most one connect, and at most one write per
    frame.  In particular no frame is written a second time and no second
    connect is made after a fault, for all the retry decorator on
    [_send_command_locked]. *)
Theorem _send_command_call_bounds
    (commands : list Z + list (list Z)) (m : machine) :
  (connect_calls m <= connect_calls (snd (_send_command commands m))
   <= S (connect_calls m))%nat /\
  (write_calls m <= write_calls (snd (_send_command commands m))
   <= write_calls m + length (frame_list commands))%nat.
Proof.
  unfold _send_command, bind.
  destruct (_ensure_connected_calls m) as [Hcc Hwr].
  destruct (_ensure_connected m) as [[[] | e] m1]; cbn [snd] in *.
  - fold (frame_list commands).
    rewrite _send_command_while_connected_machine.
    destruct (_send_command_locked_body_calls (frame_list commands)
                (log_event (EvAcquire _operation_lock) m1)) as [Hcc' Hwr'].
    set (m2 := snd (_send_command_locked_body (frame_list commands)
                      (log_event (EvAcquire _operation_lock) m1))) in *.
    cbn [connect_calls write_calls log_event] in *. lia.
  - lia.
Qed.

(** A write characteristic resolved on an earlier connection outlives the
    link: when the device reconnects while [_write_char] is still set and
    the new client's services do not hold the characteristic,
    [_resolve_characteristics] answers true on the strength of the old
    one, so the services are not fetched again and the old characteristic
    stays the one written to. *)
Theorem _ensure_connected_keeps_stale_characteristic
    (m : machine) (stale : characteristic) (fetched : option characteristic) :
  client_is_connected m = false ->
  _write_char m = Some stale ->
  establish_connection_outcome (env m) (connect_calls m) =
    Return (None, fetched) ->
  exists m',
    _ensure_connected m = (Return tt, m') /\
    _write_char m' = Some stale /\
    client_is_connected m' = true /\
    trace m' =
      trace m
      ++ [EvAcquire _connect_lock; EvEstablishConnection]
      ++ timer_events m ++ [EvRelease _connect_lock].
Proof.
  intros Hconn Hstale Hout.
  destruct (_ensure_connected_connects m None fetched Hconn Hout)
    as (m' & Hrun & Hcl & Hwc & _ & _ & Htr & _).
  exists m'. split; [exact Hrun |].
  rewrite Hstale in Hwc, Htr. cbn in Hwc, Htr.
  split; [exact Hwc |]. split.
  - unfold client_is_connected. rewrite Hcl. reflexivity.
  - exact Htr.
Qed.

Lemma _ensure_connected_keeps_stale_characteristic_witness :
  exists m',
    _ensure_connected (snd (turn_on (FindnLedDevice link_lost_once))) =
      (Return tt, m') /\
    _write_char m' = Some 7%nat /\
    client_is_connected m' = true.
Proof.
  pose (m := snd (turn_on (FindnLedDevice link_lost_once))).
  assert (Hm : snd (turn_on (FindnLedDevice link_lost_once)) = m)
    by reflexivity.
  vm_compute in m. rewrite Hm.
  destruct (_ensure_connected_keeps_stale_characteristic
              m 7%nat (Some 9%nat) eq_refl eq_refl eq_refl)
    as (m' & Hrun & Hwc & Hconn & _).
  exists m'. split; [exact Hrun |]. split; [exact Hwc | exact Hconn].
Defined.
